(** * Vehicle-registration analytics: generator and metrics engine

    A shallow embedding of [data_collector.py] (the synthetic generator) and
    [data_processor.py] (the metrics engine), and the properties of the
    specification proved or refuted on it.

    Numbers.  Registration counts are integers ([Z]).  Every derived column is
    a pandas float; a float is modelled as [fval]: a finite value, which is an
    exact rational ([Qc]), or one of the three special values the pipeline can
    produce, [+inf], [-inf] and [NaN] (the missing value of pandas).  Rounding
    and overflow of finite arithmetic are not modelled, and zero carries no
    sign (every zero divisor of the pipeline is the float image of an integer
    zero, that is [+0.0]).

    Dates.  A date is the number of days since 1970-01-01, as in a pandas
    [Timestamp] at day resolution ([pd.to_datetime] is then the identity); a
    monthly period is its pandas ordinal, the number of months since 1970-01.

    Tables.  A table is the list of its rows, in row order, with one record
    type per stage of the pipeline, so that a stage can only read columns
    that exist.  [sort_values] is a stable sort, [groupby] lists its keys in
    ascending order, a join keeps the order of its left table, and
    [pct_change] fills nothing (the monthly sums it is applied to have no
    missing value).  The tables of a call live in a store of table objects,
    where a column assignment changes an object in place.

    The square root behind [std] is a parameter, [Qc_sqrt]. *)

From Stdlib Require Import ZArith QArith Qcanon Lia OrdersEx.
From stdpp Require Import base option list sorting strings numbers gmap.

Local Open Scope Z_scope.

(** ** Floats *)

Inductive fval : Type :=
  | Fin (q : Qc)
  | PInf
  | NInf
  | NaN.

Definition Qc_sgn (q : Qc) : Z := Z.sgn (Qnum (this q)).

Definition fzero : fval := Fin (Qc_of_Z 0).
Definition fint (n : Z) : fval := Fin (Qc_of_Z n).

Definition isna (x : fval) : bool :=
  match x with NaN => true | _ => false end.

Definition notna (x : fval) : bool := negb (isna x).

Definition fopp (x : fval) : fval :=
  match x with
  | Fin q => Fin (- q)%Qc
  | PInf => NInf
  | NInf => PInf
  | NaN => NaN
  end.

Definition fadd (x y : fval) : fval :=
  match x, y with
  | NaN, _ | _, NaN => NaN
  | Fin a, Fin b => Fin (a + b)%Qc
  | PInf, NInf | NInf, PInf => NaN
  | PInf, _ | _, PInf => PInf
  | NInf, _ | _, NInf => NInf
  end.

Definition fsub (x y : fval) : fval := fadd x (fopp y).

(** The infinity of sign [s]; a zero sign is the invalid operation. *)
Definition finf (s : Z) : fval :=
  match s with
  | Z0 => NaN
  | Zpos _ => PInf
  | Zneg _ => NInf
  end.

Definition fsgn (x : fval) : Z :=
  match x with
  | Fin q => Qc_sgn q
  | PInf => 1
  | NInf => -1
  | NaN => 0
  end.

Definition fmul (x y : fval) : fval :=
  match x, y with
  | NaN, _ | _, NaN => NaN
  | Fin a, Fin b => Fin (a * b)%Qc
  | _, _ => finf (fsgn x * fsgn y)
  end.

(** Division; a finite zero divisor is [+0.0]: [a / 0] is the infinity of the
    sign of [a], and [0 / 0] is [NaN]. *)
Definition fdiv (x y : fval) : fval :=
  match x, y with
  | NaN, _ | _, NaN => NaN
  | Fin a, Fin b =>
      if Qc_sgn b =? 0 then finf (Qc_sgn a) else Fin (a / b)%Qc
  | Fin _, _ => fzero
  | _, Fin b => if Qc_sgn b <? 0 then fopp x else x
  | _, _ => NaN
  end.

Definition fabs (x : fval) : fval :=
  match x with
  | Fin q => if Qc_sgn q <? 0 then Fin (- q)%Qc else Fin q
  | PInf | NInf => PInf
  | NaN => NaN
  end.

(** [x < y] on floats; any comparison with [NaN] is false. *)
Definition fltb (x y : fval) : bool :=
  match x, y with
  | NaN, _ | _, NaN => false
  | Fin a, Fin b => Qc_sgn (a - b)%Qc <? 0
  | NInf, NInf => false
  | NInf, _ => true
  | Fin _, PInf => true
  | _, _ => false
  end.

Definition fgtb (x y : fval) : bool := fltb y x.

Definition fval_eqb (x y : fval) : bool :=
  match x, y with
  | Fin a, Fin b => Qc_sgn (a - b)%Qc =? 0
  | PInf, PInf | NInf, NInf => true
  | _, _ => false
  end.

Definition hundred : fval := fint 100.

(** The sum of a float series as numpy computes it, left to right. *)
Definition fsum (xs : list fval) : fval := foldl fadd fzero xs.

Definition sumZ (xs : list Z) : Z := foldr Z.add 0 xs.

(** [Series.mean()]: missing values are skipped; the mean of no value is
    missing. *)
Definition nanmean (xs : list fval) : fval :=
  let ys := List.filter notna xs in
  match ys with
  | [] => NaN
  | _ => fdiv (fsum ys) (fint (Z.of_nat (length ys)))
  end.

Definition fillna (d : fval) (x : fval) : fval :=
  if isna x then d else x.

(** ** Dates *)

(** The civil date [(year, month, day)] of a day number, in the proleptic
    Gregorian calendar ([Timestamp.year], [.month], [.day]). *)
Definition civil_from_days (d : Z) : Z * Z * Z :=
  let z := d + 719468 in
  let era := z / 146097 in
  let doe := z mod 146097 in
  let yoe := (doe - doe / 1460 + doe / 36524 - doe / 146096) / 365 in
  let doy := doe - (365 * yoe + yoe / 4 - yoe / 100) in
  let mp := (5 * doy + 2) / 153 in
  let dd := doy - (153 * mp + 2) / 5 + 1 in
  let m := if mp <? 10 then mp + 3 else mp - 9 in
  let y := yoe + era * 400 + (if m <=? 2 then 1 else 0) in
  (y, m, dd).

Definition date_year (d : Z) : Z := (civil_from_days d).1.1.
Definition date_month (d : Z) : Z := (civil_from_days d).1.2.
Definition date_day (d : Z) : Z := (civil_from_days d).2.

(** [dt.to_period('M')], [dt.to_period('Q')] and [dt.to_period('W')] (weeks
    end on Sunday), as period ordinals. *)
Definition to_period_M (d : Z) : Z := (date_year d - 1970) * 12 + (date_month d - 1).
Definition to_period_Q (d : Z) : Z :=
  (date_year d - 1970) * 4 + (date_month d - 1) / 3.
Definition to_period_W (d : Z) : Z := (d + 3) / 7 + 1.

Definition day_name (d : Z) : string :=
  match (d + 3) mod 7 with
  | 0 => "Monday" | 1 => "Tuesday" | 2 => "Wednesday" | 3 => "Thursday"
  | 4 => "Friday" | 5 => "Saturday" | _ => "Sunday"
  end.

Definition month_name_of (d : Z) : string :=
  match date_month d with
  | 1 => "January" | 2 => "February" | 3 => "March" | 4 => "April"
  | 5 => "May" | 6 => "June" | 7 => "July" | 8 => "August"
  | 9 => "September" | 10 => "October" | 11 => "November" | _ => "December"
  end.

(** [pd.date_range(start, end, freq='D')]: every day from [start] to [end],
    both included; empty when [end] is before [start]. *)
Definition date_range (start_date end_date : Z) : list Z :=
  fmap (fun i => start_date + Z.of_nat i)
      (seq 0 (Z.to_nat (end_date - start_date + 1))).

(** ** The observation table *)

(** One row of the raw table, with the columns the generator writes.  The
    generator's [month] column is the text [YYYY-MM], kept here as the pair
    (year, month), and its [quarter] column the text [Qn], kept as [n]. *)
Record raw_row : Type := RawRow {
  raw_date : Z;
  raw_state : string;
  raw_category : string;
  raw_registrations : Z;
  raw_month : Z * Z;
  raw_year : Z;
  raw_quarter : Z;
  raw_manufacturer : string
}.

(** ** Synthetic data generator ([VahanDataCollector]) *)

(** The two global random sources the generator consumes: the values drawn by
    [np.random.normal(1, 0.1)] and the numbers behind [random.choice], each an
    endless sequence read from its front. *)
Record rand_state : Type := RandState {
  np_random : nat -> Qc;
  py_random : nat -> nat
}.

Definition Rand (A : Type) : Type := rand_state -> A * rand_state.

Global Instance rand_ret : MRet Rand := fun A a st => (a, st).

Global Instance rand_bind : MBind Rand :=
  fun A B k m st => let (a, st') := m st in k a st'.

Definition np_random_normal : Rand Qc :=
  fun st => (np_random st 0%nat,
             {| np_random := fun n => np_random st (S n);
                py_random := py_random st |}).

Definition random_choice (l : list string) : Rand string :=
  fun st => (nth (py_random st 0%nat mod length l)%nat l ""%string,
             {| np_random := np_random st;
                py_random := fun n => py_random st (S n) |}).

(** A [for] loop that appends the rows its body produces. *)
Fixpoint for_each {A B} (xs : list A) (body : A -> Rand (list B)) : Rand (list B) :=
  match xs with
  | [] => mret []
  | x :: xs' =>
      rows ← body x;
      rest ← for_each xs' body;
      mret (rows ++ rest)
  end.

Definition dec (n : Z) (d : positive) : Qc := Q2Qc (n # d).

Definition Qc_powZ (q : Qc) (n : Z) : Qc :=
  if 0 <=? n then (q ^ Z.to_nat n)%Qc else (/ (q ^ Z.to_nat (- n)))%Qc.

(** Python's [int()] on a float: truncation toward zero. *)
Definition Qc_trunc (q : Qc) : Z := Z.quot (Qnum (this q)) (Zpos (Qden (this q))).

Definition base_numbers : gmap string Z :=
  list_to_map [("2W", 15000); ("3W", 1200); ("4W", 8000);
               ("Commercial", 2500); ("Others", 800)]%string.

Definition _get_base_registrations (category : string) : Z :=
  default 1000 (base_numbers !! category).

Definition seasonal_factors : gmap Z Qc :=
  list_to_map [(1, dec 9 10); (2, dec 85 100); (3, dec 11 10); (4, dec 115 100);
               (5, dec 95 100); (6, dec 8 10); (7, dec 75 100); (8, dec 8 10);
               (9, dec 1 1); (10, dec 13 10); (11, dec 14 10); (12, dec 12 10)].

Definition _get_seasonal_factor (date : Z) : Qc :=
  default (dec 1 1) (seasonal_factors !! date_month date).

Definition growth_rates : gmap string Qc :=
  list_to_map [("2W", dec 8 100); ("3W", dec 12 100); ("4W", dec 15 100);
               ("Commercial", dec 6 100); ("Others", dec 10 100)]%string.

Definition _get_growth_factor (date : Z) (category : string) : Qc :=
  let years_since_2020 := date_year date - 2020 in
  let annual_growth := default (dec 1 10) (growth_rates !! category) in
  Qc_powZ (1 + annual_growth)%Qc years_since_2020.

Definition state_factors : gmap string Qc :=
  list_to_map [("Maharashtra", dec 12 10); ("Karnataka", dec 1 1);
               ("Tamil Nadu", dec 11 10); ("Gujarat", dec 9 10);
               ("Uttar Pradesh", dec 13 10); ("Rajasthan", dec 8 10);
               ("West Bengal", dec 85 100); ("Telangana", dec 75 100);
               ("Haryana", dec 7 10); ("Delhi", dec 6 10);
               ("Punjab", dec 65 100); ("Madhya Pradesh", dec 8 10)]%string.

Definition _get_state_factor (state : string) : Qc :=
  default (dec 8 10) (state_factors !! state).

Definition manufacturers : gmap string (list string) :=
  list_to_map
    [("2W", ["Hero MotoCorp"; "Honda"; "TVS"; "Bajaj"; "Royal Enfield"]);
     ("3W", ["Bajaj"; "TVS"; "Mahindra"; "Piaggio"]);
     ("4W", ["Maruti Suzuki"; "Hyundai"; "Tata Motors"; "Mahindra"; "Kia"]);
     ("Commercial", ["Tata Motors"; "Ashok Leyland"; "Mahindra"; "Eicher"]);
     ("Others", ["Various"; "Others"])]%string.

Definition _get_random_manufacturer (category : string) : Rand string :=
  random_choice (default ["Others"%string] (manufacturers !! category)).

Definition default_states : list string :=
  ["Maharashtra"; "Karnataka"; "Tamil Nadu"; "Gujarat"; "Uttar Pradesh"]%string.

Definition default_categories : list string := ["2W"; "3W"; "4W"]%string.

(** Python's truth test on an optional list: [None] and [[]] are both false. *)
Definition or_default (l : option (list string)) (d : list string) : list string :=
  match l with
  | None | Some [] => d
  | Some l' => l'
  end.

(** The float under [int()] for one row, with the factors multiplied in the
    order of the source. *)
Definition registration_value (date : Z) (state category : string)
    (random_factor : Qc) : Qc :=
  let base_registrations := Qc_of_Z (_get_base_registrations category) in
  let seasonal_factor := _get_seasonal_factor date in
  let growth_factor := _get_growth_factor date category in
  (base_registrations * seasonal_factor * growth_factor * random_factor
   * _get_state_factor state)%Qc.

(** The row appended for one (date, state, category), given the two values
    drawn for it. *)
Definition make_row (date : Z) (state category : string)
    (random_factor : Qc) (manufacturer : string) : raw_row :=
  let registrations := Qc_trunc (registration_value date state category random_factor) in
  {| raw_date := date;
     raw_state := state;
     raw_category := category;
     raw_registrations := Z.max 0 registrations;
     raw_month := (date_year date, date_month date);
     raw_year := date_year date;
     raw_quarter := (date_month date - 1) / 3 + 1;
     raw_manufacturer := manufacturer |}.

Definition generate_row (date : Z) (state category : string) : Rand (list raw_row) :=
  random_factor ← np_random_normal;
  manufacturer ← _get_random_manufacturer category;
  mret [make_row date state category random_factor manufacturer].

Definition _generate_realistic_data (start_date end_date : Z)
    (states vehicle_categories : option (list string)) : Rand (list raw_row) :=
  let dates := date_range start_date end_date in
  let states := or_default states default_states in
  let vehicle_categories := or_default vehicle_categories default_categories in
  for_each dates (fun date =>
    for_each states (fun state =>
      for_each vehicle_categories (fun category =>
        generate_row date state category))).

(** ** Series and table operations of pandas *)

(** Orders of the grouping keys: text by code point, dates and periods as
    integers, composite keys lexicographically. *)
Module StateCategory := PairOrderedType String_as_OT String_as_OT.
Module SeriesKey := PairOrderedType StateCategory Z_as_OT.

Definition cmp_leb (c : comparison) : bool :=
  match c with Gt => false | _ => true end.

Definition string_leb (a b : string) : bool := cmp_leb (String_as_OT.compare a b).
Definition key_leb (a b : string * string * Z) : bool := cmp_leb (SeriesKey.compare a b).

Section sorting.
Context {A : Type} (leb : A -> A -> bool).

(** Insertion before the first element that is not smaller: a sort built
    on it keeps rows of equal key in their order, as [np.lexsort] does. *)
Fixpoint insert_sorted (x : A) (l : list A) : list A :=
  match l with
  | [] => [x]
  | y :: l' => if leb x y then x :: l else y :: insert_sorted x l'
  end.

Definition stable_sort (l : list A) : list A := foldr insert_sorted [] l.
End sorting.

(** The group keys of a [groupby]: the distinct keys, ascending. *)
Definition group_keys {K} `{EqDecision K} (leb : K -> K -> bool) (ks : list K) : list K :=
  stable_sort leb (remove_dups ks).

(** The rows of a table that carry the key [k], in table order. *)
Definition matching {B K} `{EqDecision K} (key : B -> K) (k : K) (r : list B) : list B :=
  filter (fun b => key b = k) r.

(** [df.groupby(key)[val].agg()]: one entry per group key, in key order, the
    aggregate of the group's values. *)
Definition groupby_agg {A K V W} `{EqDecision K} (leb : K -> K -> bool)
    (key : A -> K) (val : A -> V) (agg : list V -> W) (tbl : list A) : list (K * W) :=
  fmap (fun k => (k, agg (fmap val (matching key k tbl))))
      (group_keys leb (fmap key tbl)).

Definition groupby_sum {A K} `{EqDecision K} (leb : K -> K -> bool)
    (key : A -> K) (val : A -> Z) (tbl : list A) : list (K * Z) :=
  groupby_agg leb key val sumZ tbl.

(** [df.groupby(key)[val].transform(f)]: the series of each group, in table
    order, goes through [f], and every row receives the entry of [f]'s
    result at its own position within its group.  [transform_at] is the
    value received by row [r], which is the [i]-th of the table. *)
Definition transform_at {A K V W} `{EqDecision K}
    (key : A -> K) (val : A -> V) (f : list V -> list W) (d : W)
    (tbl : list A) (i : nat) (r : A) : W :=
  nth (length (matching key (key r) (take i tbl)))
      (f (fmap val (matching key (key r) tbl))) d.

Definition groupby_transform {A K V W} `{EqDecision K}
    (key : A -> K) (val : A -> V) (f : list V -> list W) (d : W)
    (tbl : list A) : list W :=
  imap (transform_at key val f d tbl) tbl.

(** The trailing window of width [w] that ends at position [j]. *)
Definition window {V} (w : nat) (xs : list V) (j : nat) : list V :=
  drop (S j - w) (take (S j) xs).

(** [x.rolling(window=w, min_periods=p)] followed by an aggregate. *)
Definition rolling {V} (w min_periods : nat) (agg : list V -> fval)
    (xs : list V) : list fval :=
  imap (fun j _ =>
          let win := window w xs j in
          if (length win <? min_periods)%nat then NaN else agg win)
       xs.

Definition mean_Z (xs : list Z) : fval :=
  fdiv (fint (sumZ xs)) (fint (Z.of_nat (length xs))).

(** [x.shift(p)] and [x.pct_change(periods=p)], which is [x / x.shift(p) - 1]. *)
Definition shift (p : nat) (xs : list fval) : list fval :=
  take (length xs) (replicate p NaN ++ xs).

Definition pct_change (p : nat) (xs : list fval) : list fval :=
  zip_with (fun x y => fsub (fdiv x y) (fint 1)) xs (shift p xs).

(** [left.merge(right, on=key, how='left')]: every left row, in order, once
    per matching right row, and once with nothing when no right row matches. *)
Definition merge_left {A B C K} `{EqDecision K} (kl : A -> K) (kr : B -> K)
    (join : A -> option B -> C) (l : list A) (r : list B) : list C :=
  a ← l;
  match matching kr (kl a) r with
  | [] => [join a None]
  | ms => fmap (fun b => join a (Some b)) ms
  end.

(** [left.merge(right, on=key)], the inner join. *)
Definition merge_inner {A B C K} `{EqDecision K} (kl : A -> K) (kr : B -> K)
    (join : A -> B -> C) (l : list A) (r : list B) : list C :=
  a ← l; fmap (join a) (matching kr (kl a) r).

Section statistics.
(** The square root of the float library, on finite non-negative values. *)
Variable Qc_sqrt : Qc -> Qc.

Definition fsqrt (x : fval) : fval :=
  match x with
  | Fin q => if Qc_sgn q <? 0 then NaN else Fin (Qc_sqrt q)
  | PInf => PInf
  | NInf | NaN => NaN
  end.

(** The sample standard deviation ([ddof=1]) of the values given. *)
Definition fstd (xs : list fval) : fval :=
  let n := Z.of_nat (length xs) in
  let m := fdiv (fsum xs) (fint n) in
  let sq := fun x => let e := fsub x m in fmul e e in
  fsqrt (fdiv (fsum (fmap sq xs)) (fint (n - 1))).

Definition std_Z (xs : list Z) : fval := fstd (fmap fint xs).

(** [Series.std()]: missing values are skipped. *)
Definition nanstd (xs : list fval) : fval := fstd (List.filter notna xs).
End statistics.

(** ** Metrics engine ([DataProcessor]) *)

(** The table after the calendar columns are set: [year], [month] and
    [quarter] replace the columns of the same name of the raw table. *)
Record timed_row : Type := TimedRow {
  date : Z;
  state : string;
  category : string;
  registrations : Z;
  manufacturer : string;
  year : Z;
  month : Z;
  quarter : Z;
  week : Z;
  day_of_week : string;
  month_name : string
}.

Record rolled_row : Type := RolledRow {
  r_base : timed_row;
  registrations_7d_avg : fval;
  registrations_30d_avg : fval
}.

(** A row of [monthly_data]. *)
Record monthly_row : Type := MonthlyRow {
  m_state : string;
  m_category : string;
  m_month : Z;
  m_registrations : Z;
  m_yoy_growth : fval;
  m_qoq_growth : fval;
  m_mom_growth : fval
}.

Record grown_row : Type := GrownRow {
  g_base : rolled_row;
  yoy_growth : fval;
  qoq_growth : fval;
  mom_growth : fval
}.

Record shared_row : Type := SharedRow {
  s_base : grown_row;
  total_daily_registrations : Z;
  category_market_share : fval;
  state_market_share : fval
}.

Record processed_row : Type := ProcessedRow {
  p_base : shared_row;
  performance_vs_30d : fval;
  is_above_average : bool;
  is_high_growth : bool;
  is_declining : bool;
  volatility_30d : fval
}.

(** The columns of the earlier stages, read on a row of a later one. *)
Definition g_row (r : grown_row) : timed_row := r_base (g_base r).
Definition s_row (r : shared_row) : timed_row := g_row (s_base r).
Definition p_row (r : processed_row) : timed_row := s_row (p_base r).
Definition p_grown (r : processed_row) : grown_row := s_base (p_base r).
Definition p_rolled (r : processed_row) : rolled_row := g_base (p_grown r).

Definition state_category (r : timed_row) : string * string := (state r, category r).
Definition series_key (r : timed_row) : string * string * Z := (state r, category r, date r).
Definition month_key (r : timed_row) : string * string * Z := (state r, category r, month r).

(** The first lines of [process_registration_data]: the date column and the
    six calendar columns. *)
Definition add_time_columns (r : raw_row) : timed_row :=
  let d := raw_date r in
  {| date := d;
     state := raw_state r;
     category := raw_category r;
     registrations := raw_registrations r;
     manufacturer := raw_manufacturer r;
     year := date_year d;
     month := to_period_M d;
     quarter := to_period_Q d;
     week := to_period_W d;
     day_of_week := day_name d;
     month_name := month_name_of d |}.

Definition sort_values (data : list timed_row) : list timed_row :=
  stable_sort (fun a b => key_leb (series_key a) (series_key b)) data.

(** *** The four stages, as functions on tables

    Each [_add_*] method of the source builds new tables and assigns columns;
    the functions below give the table each of these steps produces.  The
    methods themselves, with the objects they allocate and mutate, follow in
    the next part. *)

Definition rolling_mean (w : nat) (data : list timed_row) : list fval :=
  groupby_transform state_category registrations (rolling w 1 mean_Z) NaN data.

(** The two rolling columns, assigned on the sorted table. *)
Definition rolling_columns (data : list timed_row) : list rolled_row :=
  zip_with (fun r a => RolledRow r a.1 a.2) data
           (zip (rolling_mean 7 data) (rolling_mean 30 data)).

Definition rolling_averages_of (data : list timed_row) : list rolled_row :=
  rolling_columns (sort_values data).

(** [monthly_data] before its growth columns: the monthly sums. *)
Definition monthly_sums (data : list rolled_row) : list (string * string * Z * Z) :=
  groupby_sum key_leb (fun r => month_key (r_base r))
              (fun r => registrations (r_base r)) data.

(** A lagged percent change of the monthly sums, per (state, category). *)
Definition monthly_growth_column (p : nat) (sums : list (string * string * Z * Z)) : list fval :=
  fmap (fun x => fmul x hundred)
      (groupby_transform (fun x : string * string * Z * Z => x.1.1)
                         (fun x => fint x.2) (pct_change p) NaN sums).

Definition growth_columns (sums : list (string * string * Z * Z)) : list monthly_row :=
  zip_with (fun x g => MonthlyRow x.1.1.1 x.1.1.2 x.1.2 x.2 g.1.1 g.1.2 g.2) sums
           (zip (zip (monthly_growth_column 12 sums) (monthly_growth_column 3 sums))
                (monthly_growth_column 1 sums)).

Definition m_key (m : monthly_row) : string * string * Z :=
  (m_state m, m_category m, m_month m).

Definition merge_growth (data : list rolled_row) (monthly_data : list monthly_row)
    : list grown_row :=
  merge_left (fun r => month_key (r_base r)) m_key
             (fun r om =>
                match om with
                | Some m => GrownRow r (m_yoy_growth m) (m_qoq_growth m) (m_mom_growth m)
                | None => GrownRow r NaN NaN NaN
                end)
             data monthly_data.

Definition growth_rates_of (data : list rolled_row) : list grown_row :=
  merge_growth data (growth_columns (monthly_sums data)).

Definition daily_totals_of (data : list grown_row) : list (Z * Z) :=
  groupby_sum Z.leb (fun r => date (g_row r)) (fun r => registrations (g_row r)) data.

Definition merge_totals (data : list grown_row) (daily_totals : list (Z * Z))
    : list (grown_row * Z) :=
  merge_inner (fun r => date (g_row r)) fst (fun r t => (r, t.2)) data daily_totals.

(** The two share columns, assigned on the merged table. *)
Definition share_columns (data : list (grown_row * Z)) : list shared_row :=
  let state_sums :=
    groupby_transform (fun x : grown_row * Z => (date (g_row x.1), state (g_row x.1)))
                      (fun x => registrations (g_row x.1))
                      (fun xs => replicate (length xs) (sumZ xs)) 0 data in
  zip_with (fun x ssum =>
              let total := fint x.2 in
              SharedRow x.1 x.2
                (fmul (fdiv (fint (registrations (g_row x.1))) total) hundred)
                (fmul (fdiv (fint ssum) total) hundred))
           data state_sums.

Definition market_shares_of (data : list grown_row) : list shared_row :=
  share_columns (merge_totals data (daily_totals_of data)).

Section performance.
Variable Qc_sqrt : Qc -> Qc.

Definition volatility (xs : list Z) : list fval :=
  zip_with fdiv (rolling 30 10 (std_Z Qc_sqrt) xs) (rolling 30 10 mean_Z xs).

Definition performance_indicators_of (data : list shared_row) : list processed_row :=
  let vol :=
    groupby_transform (fun r => state_category (s_row r))
                      (fun r => registrations (s_row r)) volatility NaN data in
  zip_with (fun r v =>
              let avg := registrations_30d_avg (g_base (s_base r)) in
              let perf :=
                fmul (fdiv (fsub (fint (registrations (s_row r))) avg) avg) hundred in
              let yoy := yoy_growth (s_base r) in
              ProcessedRow r perf (fgtb perf fzero) (fgtb yoy (fint 15))
                           (fltb yoy (fint (-5))) v)
           data vol.

(** The table [process_registration_data] returns for a raw table. *)
Definition processed_table (raw_data : list raw_row) : list processed_row :=
  performance_indicators_of
    (market_shares_of
      (growth_rates_of
        (rolling_averages_of (fmap add_time_columns raw_data)))).

(** *** The methods, on the store of table objects

    A pandas table is a mutable object.  The store holds the tables alive
    during a call; a column assignment updates the object in place, and
    [copy], [sort_values], [groupby(..).sum().reset_index()] and [merge]
    each allocate a new one.  A method that finds at its argument a table
    other than the one it expects fails: that is the error a missing
    column raises. *)

Inductive frame : Type :=
  | FrameRaw (t : list raw_row)
  | FrameTimed (t : list timed_row)
  | FrameRolled (t : list rolled_row)
  | FrameMonthlySums (t : list (string * string * Z * Z))
  | FrameMonthly (t : list monthly_row)
  | FrameGrown (t : list grown_row)
  | FrameDaily (t : list (Z * Z))
  | FrameMerged (t : list (grown_row * Z))
  | FrameShared (t : list shared_row)
  | FrameProcessed (t : list processed_row).

Definition Store (A : Type) : Type := list frame -> option (A * list frame).

Global Instance store_ret : MRet Store := fun A a st => Some (a, st).

Global Instance store_bind : MBind Store :=
  fun A B k m st =>
    match m st with
    | Some (a, st') => k a st'
    | None => None
    end.

Definition new_frame (f : frame) : Store nat :=
  fun st => Some (length st, st ++ [f]).

Definition get_frame (l : nat) : Store frame :=
  fun st => match st !! l with Some f => Some (f, st) | None => None end.

Definition set_frame (l : nat) (f : frame) : Store unit :=
  fun st => Some (tt, <[l := f]> st).

Definition raise {A} : Store A := fun _ => None.

Definition _add_rolling_averages (data : nat) : Store nat :=
  f ← get_frame data;
  match f with
  | FrameTimed t =>
      data ← new_frame (FrameTimed (sort_values t));
      _ ← set_frame data (FrameRolled (rolling_columns (sort_values t)));
      mret data
  | _ => raise
  end.

Definition _add_growth_rates (data : nat) : Store nat :=
  f ← get_frame data;
  match f with
  | FrameRolled t =>
      monthly_data ← new_frame (FrameMonthlySums (monthly_sums t));
      _ ← set_frame monthly_data (FrameMonthly (growth_columns (monthly_sums t)));
      new_frame (FrameGrown (merge_growth t (growth_columns (monthly_sums t))))
  | _ => raise
  end.

Definition _add_market_shares (data : nat) : Store nat :=
  f ← get_frame data;
  match f with
  | FrameGrown t =>
      daily_totals ← new_frame (FrameDaily (daily_totals_of t));
      data ← new_frame (FrameMerged (merge_totals t (daily_totals_of t)));
      _ ← set_frame data (FrameShared (share_columns (merge_totals t (daily_totals_of t))));
      mret data
  | _ => raise
  end.

Definition _add_performance_indicators (data : nat) : Store nat :=
  f ← get_frame data;
  match f with
  | FrameShared t =>
      _ ← set_frame data (FrameProcessed (performance_indicators_of t));
      mret data
  | _ => raise
  end.

Definition process_registration_data (raw_data : nat) : Store nat :=
  f ← get_frame raw_data;
  match f with
  | FrameRaw t =>
      data ← new_frame (FrameRaw t);
      _ ← set_frame data (FrameTimed (fmap add_time_columns t));
      data ← _add_rolling_averages data;
      data ← _add_growth_rates data;
      data ← _add_market_shares data;
      _add_performance_indicators data
  | _ => raise
  end.

(** The store after a call: the caller's frames are as they were, and six
    new frames follow them, the last of which is the result. *)
Definition frames_of_call (t : list raw_row) : list frame :=
  let timed := fmap add_time_columns t in
  let rolled := rolling_averages_of timed in
  let grown := growth_rates_of rolled in
  [ FrameTimed timed;
    FrameRolled rolled;
    FrameMonthly (growth_columns (monthly_sums rolled));
    FrameGrown grown;
    FrameDaily (daily_totals_of grown);
    FrameProcessed (processed_table t) ].

(** *** The metrics summary *)

Record metrics : Type := Metrics {
  total_yoy_growth : fval;
  category_yoy_growth : gmap string fval;
  state_yoy_growth : gmap string fval;
  monthly_growth : fval;
  market_concentration : gmap string fval;
  growth_consistency : fval;
  top_growing_category : string;
  top_growth_rate : fval;
  average_volatility : fval
}.

(** [Series.max()] of an integer column; nothing on an empty table. *)
Definition column_max (xs : list Z) : option Z :=
  match xs with
  | [] => None
  | x :: xs' => Some (foldl Z.max x xs')
  end.

(** [Series.idxmax()] with [Series.max()]: the first entry of largest value. *)
Definition idxmax (s : list (string * fval)) : option (string * fval) :=
  foldl (fun best kv =>
           match best with
           | None => Some kv
           | Some b => if fltb b.2 kv.2 then Some kv else best
           end)
        None s.

(** [data.groupby(key)['yoy_growth'].mean().fillna(0)]. *)
Definition mean_yoy_by (key : processed_row -> string) (data : list processed_row)
    : list (string * fval) :=
  groupby_agg string_leb key (fun r => yoy_growth (p_grown r))
              (fun xs => fillna fzero (nanmean xs)) data.

Definition yearly_total (y : option Z) (data : list processed_row) : Z :=
  sumZ (fmap (fun r => registrations (p_row r))
            (filter (fun r => Some (year (p_row r)) = y) data)).

Definition calculate_growth_metrics (data : list processed_row) : metrics :=
  let current_year := column_max (fmap (fun r => year (p_row r)) data) in
  let previous_year := (fun y => y - 1) <$> current_year in
  let previous_year_data := filter (fun r => Some (year (p_row r)) = previous_year) data in
  let total_yoy :=
    match previous_year_data with
    | [] => fzero
    | _ =>
        let current_total := yearly_total current_year data in
        let previous_total := yearly_total previous_year data in
        fmul (fdiv (fint (current_total - previous_total)) (fint previous_total)) hundred
    end in
  let category_growth := mean_yoy_by (fun r => category (p_row r)) data in
  let state_growth := mean_yoy_by (fun r => state (p_row r)) data in
  let monthly_totals :=
    groupby_sum Z.leb (fun r => month (p_row r)) (fun r => registrations (p_row r)) data in
  let monthly_changes := pct_change 1 (fmap (fun x => fint x.2) monthly_totals) in
  let monthly :=
    if (1 <? length monthly_totals)%nat
    then fmul (nanmean monthly_changes) hundred else fzero in
  let category_shares :=
    groupby_sum string_leb (fun r => category (p_row r))
                (fun r => registrations (p_row r)) data in
  let total_registrations := sumZ (fmap snd category_shares) in
  let concentration :=
    fmap (fun x => (x.1, fmul (fdiv (fint x.2) (fint total_registrations)) hundred))
        category_shares in
  let monthly_growth_rates := List.filter notna monthly_changes in
  let consistency :=
    match monthly_growth_rates with
    | [] => fzero
    | _ =>
        if negb (fval_eqb (nanmean monthly_growth_rates) fzero)
        then fdiv (nanstd Qc_sqrt monthly_growth_rates)
                  (fabs (nanmean monthly_growth_rates))
        else fzero
    end in
  let top := idxmax category_growth in
  let avg_volatility := nanmean (fmap volatility_30d data) in
  {| total_yoy_growth := total_yoy;
     category_yoy_growth := list_to_map category_growth;
     state_yoy_growth := list_to_map state_growth;
     monthly_growth := monthly;
     market_concentration := list_to_map concentration;
     growth_consistency := consistency;
     top_growing_category := from_option fst "N/A"%string top;
     top_growth_rate := from_option snd fzero top;
     average_volatility := fillna fzero avg_volatility |}.
End performance.

(** ** Reference definitions of the specification *)

Definition const_rand (q : Qc) : rand_state :=
  {| np_random := fun _ => q; py_random := fun n => n |}.




Definition row_triple (r : raw_row) : Z * string * string :=
  (raw_date r, raw_state r, raw_category r).

(** The cartesian product in the order of the generator's three loops. *)
Definition triples (dates : list Z) (states categories : list string)
    : list (Z * string * string) :=
  d ← dates; s ← states; c ← categories; [(d, s, c)].

(** The random state after [n] draws from each source. *)
Definition advance (n : nat) (st : rand_state) : rand_state :=
  {| np_random := fun i => np_random st (n + i)%nat;
     py_random := fun i => py_random st (n + i)%nat |}.

(** The row the generator writes for a triple that is the [i]-th of its run. *)
Definition row_at (st : rand_state) (i : nat) (k : Z * string * string) : raw_row :=
  let ms := default ["Others"%string] (manufacturers !! k.2) in
  make_row k.1.1 k.1.2 k.2 (np_random st i)
           (nth (py_random st i mod length ms)%nat ms ""%string).

(** ** The columns of a table, read row by row *)

Definition rolled_at (data : list timed_row) (i : nat) (r : timed_row) : rolled_row :=
  RolledRow r
    (transform_at state_category registrations (rolling 7 1 mean_Z) NaN data i r)
    (transform_at state_category registrations (rolling 30 1 mean_Z) NaN data i r).

Definition growth_at (p : nat) (sums : list (string * string * Z * Z))
    (i : nat) (x : string * string * Z * Z) : fval :=
  fmul (transform_at (fun x : string * string * Z * Z => x.1.1)
                     (fun x => fint x.2) (pct_change p) NaN sums i x)
       hundred.

Definition monthly_at (sums : list (string * string * Z * Z))
    (i : nat) (x : string * string * Z * Z) : monthly_row :=
  MonthlyRow x.1.1.1 x.1.1.2 x.1.2 x.2
             (growth_at 12 sums i x) (growth_at 3 sums i x) (growth_at 1 sums i x).

(** The growth columns of a row: those of the one monthly row of its month,
    missing when there is none. *)
Definition attach_growth (monthly_data : list monthly_row) (r : rolled_row) : grown_row :=
  match head (matching m_key (month_key (r_base r)) monthly_data) with
  | Some m => GrownRow r (m_yoy_growth m) (m_qoq_growth m) (m_mom_growth m)
  | None => GrownRow r NaN NaN NaN
  end.

Definition daily_total (data : list grown_row) (d : Z) : Z :=
  sumZ (fmap (fun r => registrations (g_row r))
            (matching (fun r => date (g_row r)) d data)).

Definition state_total (data : list (grown_row * Z)) (i : nat) (x : grown_row * Z) : Z :=
  transform_at (fun x : grown_row * Z => (date (g_row x.1), state (g_row x.1)))
               (fun x => registrations (g_row x.1))
               (fun xs => replicate (length xs) (sumZ xs)) 0 data i x.

Definition shared_at (data : list (grown_row * Z)) (i : nat) (x : grown_row * Z)
    : shared_row :=
  SharedRow x.1 x.2
    (fmul (fdiv (fint (registrations (g_row x.1))) (fint x.2)) hundred)
    (fmul (fdiv (fint (state_total data i x)) (fint x.2)) hundred).

Section processed_at.
Variable Qc_sqrt : Qc -> Qc.

Definition processed_at (data : list shared_row) (i : nat) (r : shared_row)
    : processed_row :=
  let avg := registrations_30d_avg (g_base (s_base r)) in
  let perf := fmul (fdiv (fsub (fint (registrations (s_row r))) avg) avg) hundred in
  let yoy := yoy_growth (s_base r) in
  ProcessedRow r perf (fgtb perf fzero) (fgtb yoy (fint 15)) (fltb yoy (fint (-5)))
    (transform_at (fun r => state_category (s_row r))
                  (fun r => registrations (s_row r)) (volatility Qc_sqrt) NaN data i r).

End processed_at.

(** The registrations of the rows of the (state, category) group of row [r],
    from the top of the table down to [r], which is the [i]-th row. *)
Definition group_so_far (tbl : list timed_row) (i : nat) (r : timed_row) : list Z :=
  fmap registrations (matching state_category (state_category r) (take (S i) tbl)).

(** The last [w] entries of a series, or all of it when it is shorter. *)
Definition last_n {V} (w : nat) (xs : list V) : list V := drop (length xs - w) xs.




(** A concrete square root for runs of the model: exact on squares, and
    otherwise the root cut to three decimals. *)
Definition Qc_sqrt_approx (q : Qc) : Qc :=
  Q2Qc (Z.sqrt (Qnum (this q) * Zpos (Qden (this q)) * 1000000)
        # (Qden (this q) * 1000)).

(** The sum of the registrations of the rows of a (state, category, month). *)
Definition monthly_total (T : list timed_row) (k : string * string * Z) : Z :=
  sumZ (fmap registrations (matching month_key k T)).

(** [ms] lists the months in which the (state, category) series [sc] has
    rows, in ascending order and each once. *)
Definition series_months (T : list timed_row) (sc : string * string) (ms : list Z) : Prop :=
  StronglySorted Z.lt ms /\ forall m, m ∈ ms <-> (sc, m) ∈ fmap month_key T.

(** The percent change of [cur] against the value [prev] of the period that
    lies [p] periods back, as [pct_change] computes it, times 100; missing
    when there is no such period. *)
Definition lag_growth (cur : Z) (prev : option Z) : fval :=
  match prev with
  | Some v => fmul (fsub (fdiv (fint cur) (fint v)) (fint 1)) hundred
  | None => NaN
  end.

(** The same change as the specification writes it, [(curr - prev)/prev × 100]. *)
Definition spec_growth (cur prev : Z) : fval :=
  fmul (fdiv (fint (cur - prev)) (fint prev)) hundred.

(** The period [p] places before position [j] of a series of periods. *)
Definition period_back {V} (ms : list V) (j p : nat) : option V :=
  if (j <? p)%nat then None else ms !! (j - p)%nat.

(** The keys of [monthly_data], and its rows before the growth columns, read
    on the table of the rows. *)
Definition series_keys (T : list timed_row) : list (string * string * Z) :=
  group_keys key_leb (fmap month_key T).

Definition sums_of (T : list timed_row) : list (string * string * Z * Z) :=
  fmap (fun k => (k, monthly_total T k)) (series_keys T).

(** The sum of the registrations of the rows of calendar year [y]. *)
Definition year_total (data : list processed_row) (y : Z) : Z :=
  sumZ (fmap (fun r => registrations (p_row r))
             (filter (fun r => year (p_row r) = y) data)).

(** *** Example tables *)

Definition example_row (d : Z) (n : Z) : raw_row :=
  {| raw_date := d; raw_state := "Karnataka"; raw_category := "2W";
     raw_registrations := n;
     raw_month := (date_year d, date_month d); raw_year := date_year d;
     raw_quarter := (date_month d - 1) / 3 + 1; raw_manufacturer := "Honda" |}.

(** One (state, category) series with one row on the first day of each month
    from January 2020 to January 2021: 1000 registrations in 2020, 1200 in
    2021. *)
Definition example_two_years : list raw_row :=
  [ example_row 18262 100; example_row 18293 80; example_row 18322 80;
    example_row 18353 80; example_row 18383 80; example_row 18414 80;
    example_row 18444 80; example_row 18475 80; example_row 18506 80;
    example_row 18536 80; example_row 18567 80; example_row 18597 100;
    example_row 18628 1200 ].

(** A series with no registration in January 2020 and 10 in February. *)
Definition example_zero_month : list raw_row :=
  [ example_row 18262 0; example_row 18293 10 ].

(** Twelve consecutive days of 7 registrations each. *)
Definition example_constant : list raw_row :=
  fmap (fun i => example_row (18262 + Z.of_nat i) 7) (seq 0 12).


(** Two days of one series, the later day first. *)
Definition example_reversed : list raw_row :=
  [ example_row 18263 5; example_row 18262 7 ].


(** ** The summary statistics ([get_summary_statistics]) *)

(** [Series.min()] of an integer or date column; nothing on an empty table. *)
Definition column_min (xs : list Z) : option Z :=
  match xs with
  | [] => None
  | x :: xs' => Some (foldl Z.min x xs')
  end.

(** [Series.median()] of an integer column: the middle value in sorted order,
    or the mean of the two middle values of an even number of them; missing
    on an empty column. *)
Definition median_Z (xs : list Z) : fval :=
  let s := stable_sort Z.leb xs in
  let n := length xs in
  match n with
  | O => NaN
  | _ =>
      if Nat.even n
      then fdiv (fadd (fint (nth (n / 2 - 1) s 0)) (fint (nth (n / 2) s 0))) (fint 2)
      else fint (nth (n / 2) s 0)
  end.

Definition digit (n : Z) : Ascii.ascii := Ascii.ascii_of_nat (48 + Z.to_nat (n mod 10)).

Definition two_digits (n : Z) : string :=
  String (digit (n / 10)) (String (digit n) EmptyString).

(** [strftime('%Y-%m-%d')], for the years 1000 to 9999; every year a pandas
    timestamp can have is one of these. *)
Definition strftime_ymd (d : Z) : string :=
  let '(y, m, dd) := civil_from_days d in
  (two_digits (y / 100) +:+ two_digits y +:+ "-" +:+ two_digits m +:+ "-"
   +:+ two_digits dd)%string.

Record distribution : Type := Distribution {
  dist_mean : fval;
  dist_median : fval;
  dist_std : fval;
  dist_min : Z;
  dist_max : Z
}.

Record summary : Type := Summary {
  total_records : nat;
  date_range_start : string;
  date_range_end : string;
  total_registrations : Z;
  daily_average : fval;
  states_covered : nat;
  categories_covered : nat;
  registrations_distribution : distribution
}.

Section summary_statistics.
Variable Qc_sqrt : Qc -> Qc.

(** The summary of a table, or nothing where the source raises: the earliest
    date of a table without rows is [NaT], which has no [strftime]. *)
Definition get_summary_statistics (data : list processed_row) : option summary :=
  let dates := fmap (fun r => date (p_row r)) data in
  let regs := fmap (fun r => registrations (p_row r)) data in
  start ← column_min dates;
  end_ ← column_max dates;
  lo ← column_min regs;
  hi ← column_max regs;
  Some {| total_records := length data;
          date_range_start := strftime_ymd start;
          date_range_end := strftime_ymd end_;
          total_registrations := sumZ regs;
          daily_average := mean_Z regs;
          states_covered := length (remove_dups (fmap (fun r => state (p_row r)) data));
          categories_covered :=
            length (remove_dups (fmap (fun r => category (p_row r)) data));
          registrations_distribution :=
            {| dist_mean := mean_Z regs;
               dist_median := median_Z regs;
               dist_std := std_Z Qc_sqrt regs;
               dist_min := lo;
               dist_max := hi |} |}.
End summary_statistics.


(** ** Helpers ([utils]) *)


(** The Herfindahl-Hirschman index of a list of shares in per cent. *)
Definition calculate_market_concentration (market_shares : list fval) : fval :=
  let proportions := fmap (fun share => fdiv share hundred) market_shares in
  let hhi := fmul (fsum (fmap (fun proportion => fmul proportion proportion) proportions))
                  (fint 10000) in
  hhi.

Definition categorize_growth_rate (growth_rate : fval) : string :=
  if isna growth_rate then "Unknown"
  else if fgtb growth_rate (fint 20) then "Very High Growth"
  else if fgtb growth_rate (fint 10) then "High Growth"
  else if fgtb growth_rate (fint 5) then "Moderate Growth"
  else if fgtb growth_rate (fint 0) then "Low Growth"
  else if fgtb growth_rate (fint (-5)) then "Slight Decline"
  else if fgtb growth_rate (fint (-15)) then "Moderate Decline"
  else "Steep Decline".

(** The cases of a statement about the labels of [categorize_growth_rate]. *)
Ltac label_cases :=
  repeat split; try done;
  repeat match goal with
         | H : _ ∈ _ |- _ =>
             rewrite !elem_of_cons, elem_of_nil in H; decompose [or] H; clear H
         end;
  rewrite ?elem_of_cons, ?elem_of_nil;
  try first [ by intros; auto 10
            | intros H; decompose [and or] H; done ].


(** The row at position [i] of a table that a run of the model computes. *)
Ltac take_row tbl i r E :=
  destruct (tbl !! i) as [r|] eqn:E; [|vm_compute in E; discriminate E].

(** * Properties *)

(** ** Generator *)

Lemma advance_0 st : advance 0 st = st.
Proof. by destruct st. Qed.

Lemma for_each_app {A B} (xs ys : list A) (body : A -> Rand (list B)) st :
  for_each (xs ++ ys) body st =
  let (r1, st1) := for_each xs body st in
  let (r2, st2) := for_each ys body st1 in
  (r1 ++ r2, st2).
Proof.
  revert st. induction xs as [|x xs IH]; intros st; simpl.
  - unfold mret, rand_ret. by destruct (for_each ys body st).
  - unfold mbind, rand_bind, mret, rand_ret in *.
    destruct (body x st) as [r0 st0]. rewrite IH.
    destruct (for_each xs body st0) as [r1 st1].
    destruct (for_each ys body st1) as [r2 st2].
    by rewrite app_assoc.
Qed.

Lemma for_each_ext {A B} (xs : list A) (b1 b2 : A -> Rand (list B)) st :
  (forall x st', b1 x st' = b2 x st') ->
  for_each xs b1 st = for_each xs b2 st.
Proof.
  intros Hb. revert st. induction xs as [|x xs IH]; intros st; simpl; [done|].
  unfold mbind, rand_bind. rewrite Hb. destruct (b2 x st) as [r0 st0].
  by rewrite IH.
Qed.

Lemma for_each_bind {A B C} (xs : list A) (h : A -> list B)
    (body : B -> Rand (list C)) st :
  for_each (xs ≫= h) body st = for_each xs (fun x => for_each (h x) body) st.
Proof.
  revert st. induction xs as [|x xs IH]; intros st; simpl; [done|].
  rewrite for_each_app. unfold mbind, rand_bind, mret, rand_ret.
  destruct (for_each (h x) body st) as [r1 st1]. rewrite IH.
  by destruct (for_each xs _ st1).
Qed.

Lemma generate_triples (dates : list Z) (states cats : list string) st :
  for_each dates (fun date =>
    for_each states (fun state =>
      for_each cats (fun category => generate_row date state category))) st
  = for_each (triples dates states cats)
             (fun k => generate_row k.1.1 k.1.2 k.2) st.
Proof.
  unfold triples. rewrite for_each_bind. apply for_each_ext. intros d st1.
  rewrite for_each_bind. apply for_each_ext. intros s st2.
  rewrite for_each_bind. apply for_each_ext. intros c st3.
  simpl. unfold mbind, rand_bind, mret, rand_ret.
  destruct (generate_row d s c st3) as [r st']. by rewrite app_nil_r.
Qed.

Lemma for_each_rows (ks : list (Z * string * string)) st :
  for_each ks (fun k => generate_row k.1.1 k.1.2 k.2) st
  = (imap (row_at st) ks, advance (length ks) st).
Proof.
  revert st. induction ks as [|k ks IH]; intros st; simpl.
  - by rewrite advance_0.
  - unfold mbind, rand_bind, mret, rand_ret, generate_row.
    unfold mbind, rand_bind, mret, rand_ret, np_random_normal,
      _get_random_manufacturer, random_choice. simpl.
    rewrite IH. f_equal.
Qed.

Lemma generated_rows start_date end_date states cats st :
  (_generate_realistic_data start_date end_date states cats st).1
  = imap (row_at st)
         (triples (date_range start_date end_date)
                  (or_default states default_states)
                  (or_default cats default_categories)).
Proof.
  unfold _generate_realistic_data. by rewrite generate_triples, for_each_rows.
Qed.

Lemma row_triple_row_at st i k : row_triple (row_at st i k) = k.
Proof. by destruct k as [[d s] c]. Qed.








Lemma generated_row_lookup start_date end_date states cats st i r :
  (_generate_realistic_data start_date end_date states cats st).1 !! i = Some r ->
  exists manufacturer,
    r = make_row (raw_date r) (raw_state r) (raw_category r) (np_random st i) manufacturer.
Proof.
  rewrite generated_rows, list_lookup_imap.
  destruct (_ !! i) as [[[d s] c]|]; simpl; [|done].
  intros [= <-]. eexists. reflexivity.
Qed.




(** ** Sorting and grouping *)

Section sorting_facts.
Context {A : Type} (leb : A -> A -> bool).

Lemma insert_sorted_Permutation x l : insert_sorted leb x l ≡ₚ x :: l.
Proof.
  induction l as [|y l IH]; simpl; [done|].
  destruct (leb x y); [done|]. rewrite IH. apply Permutation_swap.
Qed.

Lemma stable_sort_Permutation l : stable_sort leb l ≡ₚ l.
Proof.
  induction l as [|x l IH]; simpl; [done|].
  unfold stable_sort in *. simpl. by rewrite insert_sorted_Permutation, IH.
Qed.

Lemma length_stable_sort l : length (stable_sort leb l) = length l.
Proof. by rewrite stable_sort_Permutation. Qed.

Lemma elem_of_stable_sort x l : x ∈ stable_sort leb l <-> x ∈ l.
Proof. by rewrite stable_sort_Permutation. Qed.

Lemma NoDup_stable_sort l : NoDup l -> NoDup (stable_sort leb l).
Proof. by rewrite stable_sort_Permutation. Qed.

Hypothesis leb_total : forall x y, leb x y = true \/ leb y x = true.
Hypothesis leb_trans : forall x y z, leb x y = true -> leb y z = true -> leb x z = true.

Lemma insert_sorted_StronglySorted x l :
  StronglySorted (fun a b => leb a b = true) l ->
  StronglySorted (fun a b => leb a b = true) (insert_sorted leb x l).
Proof.
  induction 1 as [|y l Hl IH Hy]; simpl; [repeat constructor|].
  destruct (leb x y) eqn:Hxy.
  - constructor; [by constructor|]. constructor; [done|].
    eapply Forall_impl; [exact Hy|]. intros z Hz. by eapply leb_trans.
  - constructor; [done|]. rewrite insert_sorted_Permutation.
    constructor; [|done]. destruct (leb_total x y); congruence.
Qed.

Lemma stable_sort_StronglySorted l :
  StronglySorted (fun a b => leb a b = true) (stable_sort leb l).
Proof.
  induction l as [|x l IH]; [constructor|].
  by apply insert_sorted_StronglySorted.
Qed.
End sorting_facts.

Lemma key_leb_spec a b :
  key_leb a b = true <-> a = b \/ SeriesKey.lt a b.
Proof.
  unfold key_leb.
  destruct (SeriesKey.compare_spec a b) as [E|L|G]; simpl; split; try done; auto.
  - intros _. left. destruct a as [[a1 a2] a3], b as [[b1 b2] b3].
    destruct E as [[E1 E2] E3]. simpl in *. compute in E1, E2, E3. congruence.
  - intros [->|L]; exfalso.
    + by apply (StrictOrder_Irreflexive b).
    + apply (StrictOrder_Irreflexive a). by etransitivity.
Qed.

Lemma key_leb_total a b : key_leb a b = true \/ key_leb b a = true.
Proof.
  rewrite !key_leb_spec.
  destruct (SeriesKey.compare_spec a b) as [E|L|G]; auto.
  left. left. destruct a as [[a1 a2] a3], b as [[b1 b2] b3].
  destruct E as [[E1 E2] E3]. simpl in *. compute in E1, E2, E3. congruence.
Qed.

Lemma key_leb_trans a b c :
  key_leb a b = true -> key_leb b c = true -> key_leb a c = true.
Proof.
  rewrite !key_leb_spec. intros [->|Hab] [->|Hbc]; auto.
  right. by etransitivity.
Qed.

(** Within one (state, category) the key order is the order of the third
    component. *)
Lemma key_leb_same_group s c (m1 m2 : Z) :
  key_leb (s, c, m1) (s, c, m2) = true <-> m1 <= m2.
Proof.
  assert (forall x, String_as_OT.compare x x = Eq) as Hrefl.
  { intros x. destruct (String_as_OT.compare_spec x x) as [?|L|L]; [done| |];
      by apply (StrictOrder_Irreflexive x) in L. }
  assert (key_leb (s, c, m1) (s, c, m2) = cmp_leb (m1 ?= m2)) as ->.
  { unfold key_leb, SeriesKey.compare, StateCategory.compare. cbn [fst snd].
    by rewrite !Hrefl. }
  pose proof (Z.compare_spec m1 m2) as Hc.
  destruct Hc; cbn [cmp_leb]; split; intros ?; first [done | lia].
Qed.

Lemma elem_of_group_keys {K} `{EqDecision K} (leb : K -> K -> bool) ks k :
  k ∈ group_keys leb ks <-> k ∈ ks.
Proof. unfold group_keys. by rewrite elem_of_stable_sort, elem_of_remove_dups. Qed.

Lemma NoDup_group_keys {K} `{EqDecision K} (leb : K -> K -> bool) ks :
  NoDup (group_keys leb ks).
Proof. apply NoDup_stable_sort, NoDup_remove_dups. Qed.

(** ** Tables built column by column *)

Lemma zip_with_imap_r {A B C} (h : A -> B -> C) (g : nat -> A -> B) (l : list A) :
  zip_with h l (imap g l) = imap (fun i x => h x (g i x)) l.
Proof.
  revert g. induction l as [|x l IH]; intros g; simpl; [done|].
  f_equal. apply IH.
Qed.

Lemma zip_imap {A B C} (f : nat -> A -> B) (g : nat -> A -> C) (l : list A) :
  zip (imap f l) (imap g l) = imap (fun i x => (f i x, g i x)) l.
Proof.
  revert f g. induction l as [|x l IH]; intros f g; simpl; [done|].
  f_equal. apply IH.
Qed.

Lemma map_imap {A B C} (h : B -> C) (g : nat -> A -> B) (l : list A) :
  fmap h (imap g l) = imap (fun i x => h (g i x)) l.
Proof.
  revert g. induction l as [|x l IH]; intros g; simpl; [done|].
  f_equal. apply IH.
Qed.

Lemma map_imap_indep {A B C} (h : B -> C) (h' : A -> C) (g : nat -> A -> B) (l : list A) :
  (forall i x, h (g i x) = h' x) -> fmap h (imap g l) = fmap h' l.
Proof.
  revert g. induction l as [|x l IH]; intros g Hg; simpl; [done|].
  rewrite Hg. f_equal. apply IH. intros i y. apply Hg.
Qed.

Lemma imap_proj {A B} (h : B -> A) (g : nat -> A -> B) (l : list A) :
  (forall i x, h (g i x) = x) -> fmap h (imap g l) = l.
Proof.
  intros Hg. rewrite (map_imap_indep h id) by done. apply list_fmap_id.
Qed.

Lemma length_groupby_transform {A K V W} `{EqDecision K}
    (key : A -> K) (val : A -> V) (f : list V -> list W) (d : W) (tbl : list A) :
  length (groupby_transform key val f d tbl) = length tbl.
Proof. unfold groupby_transform. apply length_imap. Qed.

(** ** Joins against a table of unique keys *)

Lemma matching_nil {B K} `{EqDecision K} (kr : B -> K) (k : K) (r : list B) :
  k ∉ fmap kr r -> matching kr k r = [].
Proof.
  unfold matching. induction r as [|b r IH]; simpl; [done|].
  rewrite not_elem_of_cons. intros [Hb Hr].
  rewrite filter_cons_False by congruence. by apply IH.
Qed.

Lemma matching_unique {B K} `{EqDecision K} (kr : B -> K) (k : K) (r : list B) :
  NoDup (fmap kr r) -> (length (matching kr k r) <= 1)%nat.
Proof.
  induction r as [|b r IH]; [unfold matching; simpl; lia|].
  rewrite fmap_cons, NoDup_cons. intros [Hb Hr]. unfold matching.
  destruct (decide (kr b = k)) as [E|E].
  - rewrite filter_cons_True by done. fold (matching kr k r).
    rewrite (matching_nil kr k r) by congruence. simpl. lia.
  - rewrite filter_cons_False by done. by apply IH.
Qed.

Lemma merge_left_unique {A B C K} `{EqDecision K} (kl : A -> K) (kr : B -> K)
    (join : A -> option B -> C) (l : list A) (r : list B) :
  NoDup (fmap kr r) ->
  merge_left kl kr join l r = fmap (fun a => join a (head (matching kr (kl a) r))) l.
Proof.
  intros Hr. unfold merge_left. induction l as [|a l IH]; [done|].
  rewrite bind_cons, IH. pose proof (matching_unique kr (kl a) r Hr) as Hlen.
  cbn [fmap list_fmap]. destruct (matching kr (kl a) r) as [|b [|b' ms]]; simpl in *;
    [done | done | lia].
Qed.

Lemma merge_inner_unique {A B C K} `{EqDecision K} (kl : A -> K) (kr : B -> K)
    (join : A -> B -> C) (l : list A) (r : list B) (pick : A -> B) :
  (forall a, a ∈ l -> matching kr (kl a) r = [pick a]) ->
  merge_inner kl kr join l r = fmap (fun a => join a (pick a)) l.
Proof.
  intros Hr. unfold merge_inner. induction l as [|a l IH]; [done|].
  rewrite bind_cons, Hr by left. simpl. f_equal.
  apply IH. intros a' Ha'. apply Hr. by right.
Qed.

Lemma matching_fmap_key {K W} `{EqDecision K} (F : K -> W) (k : K) (ks : list K) :
  NoDup ks -> k ∈ ks ->
  matching fst k (fmap (fun k' => (k', F k')) ks) = [(k, F k)].
Proof.
  unfold matching.
  induction ks as [|k0 ks IH]; simpl; [by rewrite elem_of_nil|].
  rewrite NoDup_cons, elem_of_cons. intros [Hk0 Hks] Hk.
  destruct (decide (k0 = k)) as [->|Hne].
  - rewrite filter_cons_True by done. f_equal.
    apply (matching_nil fst k). rewrite <- list_fmap_compose.
    by rewrite (list_fmap_ext _ id ks), list_fmap_id.
  - rewrite filter_cons_False by done. apply IH; [done|]. by destruct Hk.
Qed.

Lemma map_fst_groupby_agg {A K V W} `{EqDecision K} (leb : K -> K -> bool)
    (key : A -> K) (val : A -> V) (agg : list V -> W) (tbl : list A) :
  fmap fst (groupby_agg leb key val agg tbl) = group_keys leb (fmap key tbl).
Proof.
  unfold groupby_agg. rewrite <- list_fmap_compose.
  by rewrite (list_fmap_ext _ id), list_fmap_id.
Qed.

Lemma matching_groupby_agg {A K V W} `{EqDecision K} (leb : K -> K -> bool)
    (key : A -> K) (val : A -> V) (agg : list V -> W) (tbl : list A) (a : A) :
  a ∈ tbl ->
  matching fst (key a) (groupby_agg leb key val agg tbl)
  = [(key a, agg (fmap val (matching key (key a) tbl)))].
Proof.
  intros Ha. unfold groupby_agg.
  apply (matching_fmap_key (fun k => agg (fmap val (matching key k tbl)))).
  - apply NoDup_group_keys.
  - apply elem_of_group_keys, list_elem_of_fmap. eauto.
Qed.

(** ** The stages keep the rows of their input *)

Lemma rolling_columns_imap data : rolling_columns data = imap (rolled_at data) data.
Proof.
  unfold rolling_columns, rolling_mean, groupby_transform.
  by rewrite zip_imap, zip_with_imap_r.
Qed.

Lemma map_r_base_rolling_columns data : fmap r_base (rolling_columns data) = data.
Proof. rewrite rolling_columns_imap. by apply imap_proj. Qed.

Lemma growth_columns_imap sums : growth_columns sums = imap (monthly_at sums) sums.
Proof.
  unfold growth_columns, monthly_growth_column, groupby_transform.
  by rewrite !map_imap, !zip_imap, zip_with_imap_r.
Qed.

Lemma map_m_key_growth_columns sums :
  fmap m_key (growth_columns sums) = fmap fst sums.
Proof.
  rewrite growth_columns_imap. apply map_imap_indep.
  intros i x. by destruct x as [[[? ?] ?] ?].
Qed.

Lemma NoDup_m_key_monthly data :
  NoDup (fmap m_key (growth_columns (monthly_sums data))).
Proof.
  rewrite map_m_key_growth_columns. unfold monthly_sums, groupby_sum.
  rewrite map_fst_groupby_agg. apply NoDup_group_keys.
Qed.

Lemma growth_rates_of_map data :
  growth_rates_of data = fmap (attach_growth (growth_columns (monthly_sums data))) data.
Proof.
  unfold growth_rates_of, merge_growth.
  rewrite merge_left_unique by apply NoDup_m_key_monthly. done.
Qed.

Lemma map_g_base_growth_rates_of data : fmap g_base (growth_rates_of data) = data.
Proof.
  rewrite growth_rates_of_map. rewrite <- list_fmap_compose.
  rewrite (list_fmap_ext _ id); [apply list_fmap_id|]. intros i r _.
  simpl. unfold attach_growth. by destruct (head _).
Qed.

Lemma merge_totals_map data :
  merge_totals data (daily_totals_of data)
  = fmap (fun r => (r, daily_total data (date (g_row r)))) data.
Proof.
  unfold merge_totals, daily_totals_of, groupby_sum.
  rewrite (merge_inner_unique _ _ _ _ _
             (fun r => (date (g_row r), daily_total data (date (g_row r))))); [done|].
  intros a Ha.
  apply (matching_groupby_agg Z.leb (fun r => date (g_row r))
           (fun r => registrations (g_row r)) sumZ data a Ha).
Qed.

Lemma share_columns_imap data : share_columns data = imap (shared_at data) data.
Proof. unfold share_columns, groupby_transform. by rewrite zip_with_imap_r. Qed.

Lemma map_s_base_market_shares_of data : fmap s_base (market_shares_of data) = data.
Proof.
  unfold market_shares_of. rewrite share_columns_imap, merge_totals_map.
  rewrite (map_imap_indep s_base fst) by done.
  rewrite <- list_fmap_compose. apply list_fmap_id.
Qed.

Section stage_facts.
Variable Qc_sqrt : Qc -> Qc.

Lemma performance_indicators_of_imap data :
  performance_indicators_of Qc_sqrt data = imap (processed_at Qc_sqrt data) data.
Proof.
  unfold performance_indicators_of, groupby_transform. by rewrite zip_with_imap_r.
Qed.

Lemma map_p_base_performance data :
  fmap p_base (performance_indicators_of Qc_sqrt data) = data.
Proof. rewrite performance_indicators_of_imap. by apply imap_proj. Qed.

(** Row for row, the processed table extends the sorted input. *)
Lemma map_p_row_processed_table raw_data :
  fmap p_row (processed_table Qc_sqrt raw_data)
  = sort_values (fmap add_time_columns raw_data).
Proof.
  unfold processed_table.
  change p_row with (r_base ∘ g_base ∘ s_base ∘ p_base).
  rewrite !list_fmap_compose, map_p_base_performance.
  rewrite map_s_base_market_shares_of, map_g_base_growth_rates_of.
  apply map_r_base_rolling_columns.
Qed.

End stage_facts.

(** ** The methods on the store *)


Section store_facts.
Variable Qc_sqrt : Qc -> Qc.

Lemma lookup_last_frame (st : list frame) f :
  (st ++ [f]) !! length st = Some f.
Proof. by apply list_lookup_middle. Qed.

Lemma lookup_last_frame2 (st : list frame) f g :
  (st ++ [f; g]) !! S (length st) = Some g.
Proof.
  rewrite (app_assoc st [f] [g] : st ++ [f; g] = (st ++ [f]) ++ [g]).
  apply list_lookup_middle. rewrite length_app. simpl. lia.
Qed.

Lemma insert_last_frame (st : list frame) f f' :
  <[length st := f']> (st ++ [f]) = st ++ [f'].
Proof. rewrite insert_app_r_alt by lia. by rewrite Nat.sub_diag. Qed.

Lemma insert_last_frame2 (st : list frame) f g g' :
  <[S (length st) := g']> (st ++ [f; g]) = st ++ [f; g'].
Proof.
  rewrite insert_app_r_alt by lia.
  by replace (S (length st) - length st)%nat with 1%nat by lia.
Qed.

Lemma _add_rolling_averages_run st data t :
  st !! data = Some (FrameTimed t) ->
  _add_rolling_averages data st
  = Some (length st, st ++ [FrameRolled (rolling_averages_of t)]).
Proof.
  intros Hd. unfold _add_rolling_averages, mbind, store_bind, mret, store_ret,
    get_frame, new_frame, set_frame.
  rewrite Hd. by rewrite insert_last_frame.
Qed.

Lemma _add_growth_rates_run st data t :
  st !! data = Some (FrameRolled t) ->
  _add_growth_rates data st
  = Some (S (length st),
          st ++ [FrameMonthly (growth_columns (monthly_sums t));
                 FrameGrown (growth_rates_of t)]).
Proof.
  intros Hd. unfold _add_growth_rates, mbind, store_bind, mret, store_ret,
    get_frame, new_frame, set_frame.
  rewrite Hd, insert_last_frame, length_app, <- app_assoc. simpl.
  by rewrite Nat.add_1_r.
Qed.

Lemma _add_market_shares_run st data t :
  st !! data = Some (FrameGrown t) ->
  _add_market_shares data st
  = Some (S (length st),
          st ++ [FrameDaily (daily_totals_of t);
                 FrameShared (market_shares_of t)]).
Proof.
  intros Hd. unfold _add_market_shares, mbind, store_bind, mret, store_ret,
    get_frame, new_frame, set_frame.
  rewrite Hd, length_app, <- app_assoc. simpl.
  by rewrite Nat.add_1_r, insert_last_frame2.
Qed.

Lemma _add_performance_indicators_run st data t :
  st !! data = Some (FrameShared t) ->
  _add_performance_indicators Qc_sqrt data st
  = Some (data, <[data := FrameProcessed (performance_indicators_of Qc_sqrt t)]> st).
Proof.
  intros Hd. unfold _add_performance_indicators, mbind, store_bind, mret,
    store_ret, get_frame, set_frame.
  by rewrite Hd.
Qed.

Lemma process_registration_data_run st raw_data t :
  st !! raw_data = Some (FrameRaw t) ->
  process_registration_data Qc_sqrt raw_data st
  = Some ((length st + 5)%nat, st ++ frames_of_call Qc_sqrt t).
Proof.
  intros Hraw. unfold process_registration_data.
  unfold mbind at 1, store_bind at 1, get_frame at 1. rewrite Hraw.
  unfold mbind at 1, store_bind at 1, new_frame at 1.
  unfold mbind at 1, store_bind at 1, set_frame at 1.
  rewrite insert_last_frame.
  unfold mbind at 1, store_bind at 1.
  rewrite (_add_rolling_averages_run _ _ (fmap add_time_columns t))
    by apply lookup_last_frame.
  unfold mbind at 1, store_bind at 1.
  rewrite (_add_growth_rates_run _ _ (rolling_averages_of (fmap add_time_columns t)))
    by apply lookup_last_frame.
  unfold mbind at 1, store_bind at 1.
  rewrite (_add_market_shares_run _ _
             (growth_rates_of (rolling_averages_of (fmap add_time_columns t))))
    by apply lookup_last_frame2.
  rewrite (_add_performance_indicators_run _ _
             (market_shares_of
                (growth_rates_of (rolling_averages_of (fmap add_time_columns t)))))
    by apply lookup_last_frame2.
  rewrite insert_last_frame2. f_equal. f_equal.
  - rewrite !length_app. simpl. lia.
  - unfold frames_of_call, processed_table. by rewrite <- !app_assoc.
Qed.

Lemma lookup_frames_of_call_result (st : list frame) t :
  (st ++ frames_of_call Qc_sqrt t) !! (length st + 5)%nat
  = Some (FrameProcessed (processed_table Qc_sqrt t)).
Proof. by rewrite lookup_app_r, Nat.add_comm, Nat.add_sub by lia. Qed.




(** C8: two calls on the same raw table, the second in the store the
    first has left, return equal tables in two distinct objects; and so
    does a call in any other store that holds an equal raw table. *)
Theorem process_twice_same_table st raw_data t :
  st !! raw_data = Some (FrameRaw t) ->
  exists out1 st1 out2 st2 tbl,
    process_registration_data Qc_sqrt raw_data st = Some (out1, st1)
    /\ process_registration_data Qc_sqrt raw_data st1 = Some (out2, st2)
    /\ out1 <> out2
    /\ st2 !! out1 = Some (FrameProcessed tbl)
    /\ st2 !! out2 = Some (FrameProcessed tbl)
    /\ (forall st' raw_data',
          st' !! raw_data' = Some (FrameRaw t) ->
          exists out' st'',
            process_registration_data Qc_sqrt raw_data' st' = Some (out', st'')
            /\ st'' !! out' = Some (FrameProcessed tbl)).
Proof.
  intros Hraw.
  assert ((st ++ frames_of_call Qc_sqrt t) !! raw_data = Some (FrameRaw t)) as Hraw1
    by (by apply lookup_app_l_Some).
  exists (length st + 5)%nat, (st ++ frames_of_call Qc_sqrt t),
    (length (st ++ frames_of_call Qc_sqrt t) + 5)%nat,
    ((st ++ frames_of_call Qc_sqrt t) ++ frames_of_call Qc_sqrt t), (processed_table Qc_sqrt t).
  split; [by apply process_registration_data_run|].
  split; [by apply process_registration_data_run|].
  split; [rewrite length_app; simpl; lia|].
  split; [apply lookup_app_l_Some, lookup_frames_of_call_result|].
  split; [apply lookup_frames_of_call_result|].
  intros st' raw' Hraw'.
  exists (length st' + 5)%nat, (st' ++ frames_of_call Qc_sqrt t).
  split; [by apply process_registration_data_run|].
  apply lookup_frames_of_call_result.
Qed.
End store_facts.

(** ** Rolling windows over a group *)

Section transform_facts.
Context {A K V : Type} `{EqDecision K} (key : A -> K) (val : A -> V).

Lemma matching_app k (l1 l2 : list A) :
  matching key k (l1 ++ l2) = matching key k l1 ++ matching key k l2.
Proof. unfold matching. apply filter_app. Qed.

Lemma matching_cons_same r (l : list A) :
  matching key (key r) (r :: l) = r :: matching key (key r) l.
Proof. unfold matching. by rewrite filter_cons_True. Qed.

Lemma matching_take_S (tbl : list A) i r :
  tbl !! i = Some r ->
  matching key (key r) (take (S i) tbl) = matching key (key r) (take i tbl) ++ [r].
Proof.
  intros Hi. rewrite (take_S_r _ _ _ Hi), matching_app.
  by rewrite matching_cons_same.
Qed.

Lemma matching_split (tbl : list A) i r :
  tbl !! i = Some r ->
  matching key (key r) tbl
  = matching key (key r) (take (S i) tbl) ++ matching key (key r) (drop (S i) tbl).
Proof.
  intros Hi. by rewrite <- matching_app, take_drop.
Qed.

(** The series of a row's group, cut after the row, is the series of the
    group within the table cut after the row. *)
Lemma take_group_series (tbl : list A) i r :
  tbl !! i = Some r ->
  take (S (length (matching key (key r) (take i tbl))))
       (fmap val (matching key (key r) tbl))
  = fmap val (matching key (key r) (take (S i) tbl)).
Proof.
  intros Hi. rewrite (matching_split tbl i r Hi), map_app.
  rewrite take_app_length'; [done|].
  by rewrite length_map, (matching_take_S tbl i r Hi), length_app, Nat.add_1_r.
Qed.

Lemma position_in_group (tbl : list A) i r :
  tbl !! i = Some r ->
  (length (matching key (key r) (take i tbl))
   < length (fmap val (matching key (key r) tbl)))%nat.
Proof.
  intros Hi. rewrite (matching_split tbl i r Hi), (matching_take_S tbl i r Hi).
  rewrite length_map, !length_app. simpl. lia.
Qed.

Lemma transform_at_rolling (w p : nat) (agg : list V -> fval) (tbl : list A) i r :
  tbl !! i = Some r ->
  transform_at key val (rolling w p agg) NaN tbl i r
  = let G := fmap val (matching key (key r) (take (S i) tbl)) in
    let W := drop (length G - w) G in
    if (length W <? p)%nat then NaN else agg W.
Proof.
  intros Hi. unfold transform_at, rolling.
  pose proof (position_in_group tbl i r Hi) as Hpos.
  set (k := length (matching key (key r) (take i tbl))) in *.
  set (X := fmap val (matching key (key r) tbl)) in *.
  destruct (lookup_lt_is_Some_2 X k Hpos) as [x Hx].
  rewrite (nth_lookup_Some _ _ _ (if (length (window w X k) <? p)%nat
                                  then NaN else agg (window w X k)))
    by (rewrite list_lookup_imap, Hx; done).
  unfold window. unfold k, X. rewrite (take_group_series tbl i r Hi).
  cbn zeta.
  replace (length (fmap val (matching key (key r) (take (S i) tbl))))
    with (S (length (matching key (key r) (take i tbl))))
    by (rewrite length_map, (matching_take_S tbl i r Hi), length_app; simpl; lia).
  done.
Qed.
End transform_facts.

(** ** Rolling averages *)

Lemma Qc_of_Z_1 : Qc_of_Z 1 = 1%Qc.
Proof. by apply Qc_is_canon. Qed.

Lemma Qc_of_Z_0 : Qc_of_Z 0 = 0%Qc.
Proof. by apply Qc_is_canon. Qed.

Lemma mean_Z_singleton x : mean_Z [x] = fint x.
Proof.
  unfold mean_Z, sumZ. cbn [foldr length]. rewrite Z.add_0_r.
  change (Z.of_nat 1) with 1. unfold fint, fdiv. rewrite Qc_of_Z_1.
  change (Qc_sgn 1 =? 0) with false. cbn iota.
  by rewrite (right_id 1%Qc Qcdiv).
Qed.

Section rolling_facts.
Variable Qc_sqrt : Qc -> Qc.

Lemma map_p_rolled_processed_table raw_data :
  fmap p_rolled (processed_table Qc_sqrt raw_data)
  = rolling_averages_of (fmap add_time_columns raw_data).
Proof.
  unfold processed_table.
  change p_rolled with (g_base ∘ s_base ∘ p_base).
  rewrite !list_fmap_compose, map_p_base_performance.
  by rewrite map_s_base_market_shares_of, map_g_base_growth_rates_of.
Qed.

Lemma lookup_processed_rolled raw_data i r :
  processed_table Qc_sqrt raw_data !! i = Some r ->
  let tbl := fmap p_row (processed_table Qc_sqrt raw_data) in
  tbl !! i = Some (p_row r) /\ p_rolled r = rolled_at tbl i (p_row r).
Proof.
  intros Hr tbl.
  assert (tbl !! i = Some (p_row r)) as Hrow
    by (unfold tbl; by rewrite list_lookup_fmap, Hr).
  split; [done|].
  assert (fmap p_rolled (processed_table Qc_sqrt raw_data) !! i = Some (p_rolled r))
    as Hrolled by (by rewrite list_lookup_fmap, Hr).
  rewrite map_p_rolled_processed_table in Hrolled.
  unfold rolling_averages_of in Hrolled.
  rewrite rolling_columns_imap, list_lookup_imap in Hrolled.
  unfold tbl. rewrite map_p_row_processed_table.
  unfold tbl in Hrow. rewrite map_p_row_processed_table in Hrow.
  rewrite Hrow in Hrolled. simpl in Hrolled. congruence.
Qed.

Lemma rolling_mean_at (w : nat) (tbl : list timed_row) i r :
  (1 <= w)%nat -> tbl !! i = Some r ->
  transform_at state_category registrations (rolling w 1 mean_Z) NaN tbl i r
  = mean_Z (last_n w (group_so_far tbl i r)).
Proof.
  intros Hw Hi. rewrite (transform_at_rolling _ _ _ _ _ _ _ _ Hi). cbn zeta.
  fold (group_so_far tbl i r). fold (last_n w (group_so_far tbl i r)).
  assert (1 <= length (last_n w (group_so_far tbl i r)))%nat as Hlen.
  { unfold last_n. rewrite length_drop. unfold group_so_far.
    rewrite length_map, (matching_take_S _ _ _ _ Hi), length_app. simpl. lia. }
  destruct (Nat.ltb_spec (length (last_n w (group_so_far tbl i r))) 1); [lia|done].
Qed.

Lemma group_so_far_first (tbl : list timed_row) i r :
  tbl !! i = Some r ->
  (forall j r', (j < i)%nat -> tbl !! j = Some r' ->
                state_category r' <> state_category r) ->
  group_so_far tbl i r = [registrations r].
Proof.
  intros Hi Hfirst. unfold group_so_far.
  rewrite (matching_take_S _ _ _ _ Hi).
  assert (matching state_category (state_category r) (take i tbl) = []) as ->.
  { apply matching_nil. intros Hin.
    apply list_elem_of_fmap in Hin as (r' & E & Hr').
    apply list_elem_of_lookup in Hr' as [j Hj].
    pose proof (lookup_lt_Some _ _ _ Hj) as Hlt. rewrite length_take in Hlt.
    rewrite lookup_take_lt in Hj by lia.
    by apply (Hfirst j r'); [lia| |]. }
  done.
Qed.

Lemma sort_values_sorted data :
  StronglySorted (fun a b => key_leb (series_key a) (series_key b) = true)
                 (sort_values data).
Proof.
  apply stable_sort_StronglySorted.
  - intros x y. apply key_leb_total.
  - intros x y z. apply key_leb_trans.
Qed.

End rolling_facts.

(** ** Volatility *)

Lemma Qc_of_Z_add a b : Qc_of_Z (a + b) = (Qc_of_Z a + Qc_of_Z b)%Qc.
Proof.
  apply Qc_is_canon. unfold Qcplus, Q2Qc, Qc_of_Z. cbn [this].
  by rewrite Qred_correct, inject_Z_plus.
Qed.

Lemma Qc_of_Z_mul a b : Qc_of_Z (a * b) = (Qc_of_Z a * Qc_of_Z b)%Qc.
Proof.
  apply Qc_is_canon. unfold Qcmult, Q2Qc, Qc_of_Z. cbn [this].
  by rewrite Qred_correct, inject_Z_mult.
Qed.

Lemma Qc_sgn_of_Z z : Qc_sgn (Qc_of_Z z) = Z.sgn z.
Proof. done. Qed.

Lemma Qc_of_Z_nonzero z : z <> 0 -> Qc_of_Z z <> 0%Qc.
Proof.
  intros Hz E. apply (f_equal Qc_sgn) in E. rewrite Qc_sgn_of_Z in E.
  change (Qc_sgn 0%Qc) with 0 in E. lia.
Qed.






Section volatility_facts.
Variable Qc_sqrt : Qc -> Qc.
Hypothesis Qc_sqrt_0 : Qc_sqrt 0%Qc = 0%Qc.


Lemma zip_with_imap {A B C D} (h : B -> C -> D) (f : nat -> A -> B)
    (g : nat -> A -> C) (l : list A) :
  zip_with h (imap f l) (imap g l) = imap (fun i x => h (f i x) (g i x)) l.
Proof.
  revert f g. induction l as [|x l IH]; intros f g; simpl; [done|].
  f_equal. apply IH.
Qed.

Lemma volatility_rolling (xs : list Z) :
  volatility Qc_sqrt xs
  = rolling 30 10 (fun W => fdiv (std_Z Qc_sqrt W) (mean_Z W)) xs.
Proof.
  unfold volatility, rolling. rewrite zip_with_imap.
  apply imap_ext. intros j x _. simpl.
  by destruct (length (window 30 xs j) <? 10)%nat.
Qed.

Lemma map_matching_compose {A B K} `{EqDecision K} (f : A -> B) (key : B -> K)
    (k : K) (l : list A) :
  fmap f (matching (fun a => key (f a)) k l) = matching key k (fmap f l).
Proof.
  unfold matching. induction l as [|a l IH]; [done|]. cbn [fmap list_fmap].
  destruct (decide (key (f a) = k)) as [E|E].
  - rewrite !filter_cons_True by done. cbn [fmap list_fmap]. by rewrite IH.
  - by rewrite !filter_cons_False.
Qed.

Lemma lookup_processed_volatility raw_data i r :
  processed_table Qc_sqrt raw_data !! i = Some r ->
  let tbl := fmap p_row (processed_table Qc_sqrt raw_data) in
  let W := last_n 30 (group_so_far tbl i (p_row r)) in
  volatility_30d r
  = if (length W <? 10)%nat then NaN else fdiv (std_Z Qc_sqrt W) (mean_Z W).
Proof.
  intros Hr tbl W. unfold processed_table in Hr.
  set (data := market_shares_of _) in Hr.
  assert (fmap s_row data = tbl) as Hdata.
  { unfold tbl, processed_table. fold data.
    change p_row with (s_row ∘ p_base).
    by rewrite list_fmap_compose, map_p_base_performance. }
  rewrite performance_indicators_of_imap, list_lookup_imap in Hr.
  destruct (data !! i) as [x|] eqn:Hx; [|done]. simpl in Hr.
  injection Hr as <-. cbn [volatility_30d processed_at].
  unfold transform_at. rewrite volatility_rolling.
  fold (transform_at (fun r => state_category (s_row r))
          (fun r => registrations (s_row r))
          (rolling 30 10 (fun W => fdiv (std_Z Qc_sqrt W) (mean_Z W))) NaN data i x).
  rewrite (transform_at_rolling _ _ _ _ _ _ _ _ Hx). cbn zeta.
  assert (fmap (fun r => registrations (s_row r))
            (matching (fun r => state_category (s_row r))
               (state_category (s_row x)) (take (S i) data))
          = group_so_far tbl i (s_row x)) as ->.
  { unfold group_so_far. rewrite <- Hdata, <- fmap_take.
    rewrite <- (map_matching_compose s_row state_category).
    by rewrite <- list_fmap_compose. }
  done.
Qed.

End volatility_facts.

(** ** Market shares *)

Lemma foldl_fadd_scaled (c : Qc) (a : Z) (zs : list Z) :
  foldl fadd (Fin (Qc_of_Z a * c)%Qc) (fmap (fun z => Fin (Qc_of_Z z * c)%Qc) zs)
  = Fin (Qc_of_Z (a + sumZ zs) * c)%Qc.
Proof.
  revert a. induction zs as [|z zs IH]; intros a.
  - unfold sumZ. cbn [fmap list_fmap foldl foldr]. by rewrite Z.add_0_r.
  - cbn [fmap list_fmap foldl fadd]. rewrite <- Qcmult_plus_distr_l, <- Qc_of_Z_add, IH.
    unfold sumZ. cbn [foldr]. by rewrite Z.add_assoc.
Qed.

Lemma share_of_total z T :
  T <> 0 ->
  fmul (fdiv (fint z) (fint T)) hundred
  = Fin (Qc_of_Z z * (/ Qc_of_Z T * Qc_of_Z 100))%Qc.
Proof.
  intros HT. unfold fint, fdiv, hundred, fint. rewrite Qc_sgn_of_Z.
  destruct (Z.eqb_spec (Z.sgn T) 0) as [E|_]; [lia|].
  cbn [fmul]. f_equal. unfold Qcdiv. by rewrite Qcmult_assoc.
Qed.

Lemma fsum_shares T (zs : list Z) :
  T <> 0 ->
  fsum (fmap (fun z => fmul (fdiv (fint z) (fint T)) hundred) zs)
  = fmul (fdiv (fint (sumZ zs)) (fint T)) hundred.
Proof.
  intros HT. rewrite (share_of_total _ T HT).
  rewrite (list_fmap_ext _ (fun z => Fin (Qc_of_Z z * (/ Qc_of_Z T * Qc_of_Z 100))%Qc))
    by (intros i z _; by apply share_of_total).
  unfold fsum, fzero.
  replace (Qc_of_Z 0) with (Qc_of_Z 0 * (/ Qc_of_Z T * Qc_of_Z 100))%Qc
    by (by rewrite Qc_of_Z_0, Qcmult_0_l).
  by rewrite foldl_fadd_scaled, Z.add_0_l.
Qed.

Lemma fsum_shares_of {B} (f : B -> Z) T (l : list B) :
  T <> 0 ->
  fsum (fmap (fun x => fmul (fdiv (fint (f x)) (fint T)) hundred) l)
  = fmul (fdiv (fint (sumZ (fmap f l))) (fint T)) hundred.
Proof.
  intros HT. rewrite <- (fsum_shares T (fmap f l) HT). f_equal.
  symmetry. apply List.map_map.
Qed.

Lemma share_of_whole T : T <> 0 -> fmul (fdiv (fint T) (fint T)) hundred = hundred.
Proof.
  intros HT. rewrite (share_of_total T T HT). unfold hundred, fint. f_equal.
  rewrite Qcmult_assoc, Qcmult_inv_r by (by apply Qc_of_Z_nonzero).
  apply Qcmult_1_l.
Qed.

Section group_sums.
Context {A K : Type} `{EqDecision K} (key : A -> K) (val : A -> Z).

Lemma sum_indicator (k0 : K) (v : Z) (ks : list K) :
  NoDup ks -> k0 ∈ ks ->
  sumZ (fmap (fun k => if decide (k0 = k) then v else 0) ks) = v.
Proof.
  induction ks as [|k ks IH]; [by rewrite elem_of_nil|].
  rewrite NoDup_cons, elem_of_cons. intros [Hk Hks] Hin.
  unfold sumZ in *. cbn [fmap list_fmap foldr]. destruct (decide (k0 = k)) as [->|Hne].
  - assert (foldr Z.add 0 (fmap (fun k' => if decide (k = k') then v else 0) ks) = 0)
      as ->; [|lia].
    clear IH Hin Hks. induction ks as [|k' ks IH]; [done|].
    apply not_elem_of_cons in Hk as [Hne Hk]. cbn [fmap list_fmap foldr].
    rewrite decide_False by done. by rewrite IH.
  - rewrite IH; [lia|done|]. by destruct Hin as [->|?].
Qed.

Lemma sumZ_map_add {B} (f g : B -> Z) (l : list B) :
  sumZ (fmap (fun x => f x + g x) l) = sumZ (fmap f l) + sumZ (fmap g l).
Proof.
  unfold sumZ. induction l as [|x l IH]; [done|]. cbn [fmap list_fmap foldr]. lia.
Qed.

(** A sum taken group by group is the sum over the whole table. *)
Lemma sum_by_groups (l : list A) (ks : list K) :
  NoDup ks -> (forall x, x ∈ l -> key x ∈ ks) ->
  sumZ (fmap (fun k => sumZ (fmap val (matching key k l))) ks) = sumZ (fmap val l).
Proof.
  intros Hks. induction l as [|x l IH]; intros Hl.
  - clear. unfold matching, sumZ. cbn. induction ks as [|k ks IHk]; [done|].
    cbn [fmap list_fmap foldr]. by rewrite IHk.
  - rewrite (list_fmap_ext _
               (fun k => (if decide (key x = k) then val x else 0)
                         + sumZ (fmap val (matching key k l)))).
    + rewrite sumZ_map_add, IH by (intros y Hy; apply Hl; by right).
      rewrite sum_indicator by (done || (apply Hl; by left)).
      unfold sumZ. by cbn [fmap list_fmap foldr].
    + intros i k _. unfold matching. destruct (decide (key x = k)) as [E|E].
      * rewrite filter_cons_True by done. unfold sumZ. by cbn [fmap list_fmap foldr].
      * rewrite filter_cons_False by done. lia.
Qed.
End group_sums.


Lemma map_val_matching {A B K} `{EqDecision K} (f : A -> B) (key : B -> K)
    (val : B -> Z) (k : K) (l : list A) :
  fmap (fun a => val (f a)) (matching (fun a => key (f a)) k l)
  = fmap val (matching key k (fmap f l)).
Proof.
  rewrite <- (map_matching_compose f key), <- list_fmap_compose. done.
Qed.


Section share_facts.
Variable Qc_sqrt : Qc -> Qc.




End share_facts.




(** ** Growth rates *)

Lemma StronglySorted_filter {A} (R : relation A) (P : A -> Prop)
    `{forall x, Decision (P x)} (l : list A) :
  StronglySorted R l -> StronglySorted R (filter P l).
Proof.
  induction 1 as [|x l Hl IH Hx]; [constructor|].
  destruct (decide (P x)).
  - rewrite filter_cons_True by done. constructor; [done|].
    apply Forall_forall. intros y Hy. apply list_elem_of_filter in Hy as [_ Hy].
    by eapply Forall_forall in Hx.
  - by rewrite filter_cons_False.
Qed.

Lemma StronglySorted_weaken {A} (R1 R2 : relation A) (l : list A) :
  (forall x y, R1 x y -> R2 x y) -> StronglySorted R1 l -> StronglySorted R2 l.
Proof.
  intros HR. induction 1 as [|x l Hl IH Hx]; constructor; [done|].
  eapply Forall_impl; [exact Hx|]. intros y. apply HR.
Qed.

Lemma StronglySorted_lt_NoDup (l : list Z) : StronglySorted Z.lt l -> NoDup l.
Proof.
  induction 1 as [|x l Hl IH Hx]; constructor; [|done].
  intros Hin. eapply Forall_forall in Hx; [|exact Hin]. lia.
Qed.

Lemma lookup_shift p (xs : list fval) j :
  (j < length xs)%nat ->
  shift p xs !! j = Some (from_option id NaN (period_back xs j p)).
Proof.
  intros Hj. unfold shift, period_back. rewrite lookup_take_lt by done.
  destruct (Nat.ltb_spec j p) as [Hlt|Hge].
  - rewrite lookup_app_l by (by rewrite length_replicate).
    by rewrite lookup_replicate_2.
  - rewrite lookup_app_r by (by rewrite length_replicate).
    rewrite length_replicate.
    destruct (lookup_lt_is_Some_2 xs (j - p)) as [y Hy]; [lia|].
    by rewrite Hy.
Qed.

Lemma fdiv_NaN_r x : fdiv x NaN = NaN.
Proof. by destruct x. Qed.

Lemma lookup_pct_change p (xs : list fval) j x :
  xs !! j = Some x ->
  pct_change p xs !! j
  = Some (fsub (fdiv x (from_option id NaN (period_back xs j p))) (fint 1)).
Proof.
  intros Hx. unfold pct_change. rewrite lookup_zip_with, Hx.
  rewrite lookup_shift by (by eapply lookup_lt_Some). done.
Qed.

Section group_lookup.
Context {A K : Type} `{EqDecision K} (key : A -> K).

Lemma lookup_in_group (tbl : list A) i r :
  tbl !! i = Some r ->
  matching key (key r) tbl !! length (matching key (key r) (take i tbl)) = Some r.
Proof.
  intros Hi. rewrite (matching_split key tbl i r Hi), (matching_take_S key tbl i r Hi).
  rewrite <- app_assoc. by apply list_lookup_middle.
Qed.

Lemma matching_singleton (r : list A) (b : A) :
  NoDup (fmap key r) -> b ∈ r -> matching key (key b) r = [b].
Proof.
  intros Hnd Hb. pose proof (matching_unique key (key b) r Hnd) as Hle.
  assert (b ∈ matching key (key b) r) as Hin
    by (unfold matching; by apply list_elem_of_filter).
  destruct (matching key (key b) r) as [|b' [|? ?]]; simpl in Hle;
    [by apply elem_of_nil in Hin | | lia].
  by apply list_elem_of_singleton in Hin as ->.
Qed.
End group_lookup.

Lemma StronglySorted_fmap_inv {A B} (R1 : relation A) (R2 : relation B)
    (f : A -> B) (l : list A) :
  (forall x y, R2 (f x) (f y) -> R1 x y) ->
  StronglySorted R2 (f <$> l) -> StronglySorted R1 l.
Proof.
  intros HR. induction l as [|x l IH]; [constructor|].
  rewrite fmap_cons. intros Hs. apply StronglySorted_inv in Hs as [Hl Hx].
  constructor; [by apply IH|].
  apply Forall_forall. intros y Hy. apply HR.
  eapply Forall_forall in Hx; [exact Hx|]. by apply list_elem_of_fmap_2.
Qed.

Lemma monthly_sums_sums_of (data : list rolled_row) :
  monthly_sums data = sums_of (fmap r_base data).
Proof.
  unfold monthly_sums, groupby_sum, groupby_agg, sums_of, series_keys.
  rewrite <- (list_fmap_compose r_base month_key).
  apply list_fmap_ext. intros i k _. f_equal.
  unfold monthly_total. f_equal.
  apply (map_val_matching r_base month_key registrations).
Qed.

Lemma elem_of_series_keys T k : k ∈ series_keys T <-> k ∈ fmap month_key T.
Proof. apply elem_of_group_keys. Qed.

Lemma series_keys_sorted T :
  StronglySorted (fun a b => key_leb a b = true) (series_keys T).
Proof.
  apply stable_sort_StronglySorted; [apply key_leb_total | apply key_leb_trans].
Qed.

(** The keys of one (state, category) within [monthly_data] are its months
    in ascending order. *)
Lemma series_keys_group T sc ms :
  series_months T sc ms ->
  matching fst sc (series_keys T) = fmap (fun m => (sc, m)) ms.
Proof.
  intros [Hsorted Hmem].
  set (Gk := matching fst sc (series_keys T)).
  assert (forall k, k ∈ Gk <-> k ∈ series_keys T /\ k.1 = sc) as HGk.
  { intros k. unfold Gk, matching. rewrite list_elem_of_filter. tauto. }
  assert (Gk = fmap (fun m => (sc, m)) (fmap snd Gk)) as EGk.
  { rewrite <- list_fmap_compose. rewrite <- (list_fmap_id Gk) at 1.
    apply list_fmap_ext. intros i k Hk.
    apply list_elem_of_lookup_2, HGk in Hk as [_ <-]. by destruct k. }
  rewrite EGk. f_equal.
  apply (StronglySorted_unique Z.le).
  - apply (StronglySorted_fmap_inv Z.le (fun a b => key_leb a b = true)
             (fun m => (sc, m))).
    + intros x y. destruct sc as [st ca]. apply key_leb_same_group.
    + rewrite <- EGk. unfold Gk, matching.
      apply StronglySorted_filter, series_keys_sorted.
  - eapply StronglySorted_weaken; [|exact Hsorted]. intros x y. lia.
  - apply NoDup_Permutation.
    + apply (NoDup_fmap_1 (fun m => (sc, m))). rewrite <- EGk.
      unfold Gk, matching. apply NoDup_filter, NoDup_group_keys.
    + by apply StronglySorted_lt_NoDup.
    + intros m. rewrite Hmem, <- elem_of_series_keys. split.
      * intros Hm. apply list_elem_of_fmap in Hm as (k & -> & Hk).
        apply HGk in Hk as [Hk <-]. by destruct k.
      * intros Hk. apply list_elem_of_fmap. exists (sc, m). split; [done|].
        by apply HGk.
Qed.

(** Every series has such an enumeration of its months, and the month of
    each of its rows is in it. *)
Lemma series_months_exists (T : list timed_row) (r : timed_row) :
  r ∈ T ->
  exists ms j, series_months T (state_category r) ms /\ ms !! j = Some (month r).
Proof.
  intros Hr. set (sc := state_category r).
  set (Gk := matching fst sc (series_keys T)).
  assert (forall k, k ∈ Gk <-> k ∈ series_keys T /\ k.1 = sc) as HGk.
  { intros k. unfold Gk, matching. rewrite list_elem_of_filter. tauto. }
  assert (forall m, m ∈ fmap snd Gk <-> (sc, m) ∈ fmap month_key T) as Hmem.
  { intros m. rewrite <- elem_of_series_keys. split.
    - intros Hm. apply list_elem_of_fmap in Hm as (k & -> & Hk).
      apply HGk in Hk as [Hk <-]. by destruct k.
    - intros Hk. apply list_elem_of_fmap. exists (sc, m). split; [done|].
      by apply HGk. }
  assert (StronglySorted Z.lt (fmap snd Gk)) as Hsorted.
  { assert (StronglySorted (fun a b => key_leb a b = true) Gk) as Hs
      by (unfold Gk, matching; apply StronglySorted_filter, series_keys_sorted).
    assert (NoDup Gk) as Hnd
      by (unfold Gk, matching; apply NoDup_filter, NoDup_group_keys).
    assert (Forall (fun k => k.1 = sc) Gk) as Hsc
      by (apply Forall_forall; intros k Hk; by apply HGk in Hk as [_ ?]).
    clear HGk Hmem. induction Hs as [|x l Hl IH Hx]; [constructor|].
    apply NoDup_cons in Hnd as [Hxl Hnd]. apply Forall_cons_1 in Hsc as [Ex Hsc].
    rewrite fmap_cons. constructor; [by apply IH|].
    apply Forall_fmap, Forall_forall. intros y Hy. simpl.
    pose proof (proj1 (Forall_forall _ _) Hx y Hy) as Hle.
    pose proof (proj1 (Forall_forall _ _) Hsc y Hy) as Ey.
    destruct x as [scx mx], y as [scy my]. simpl in *. subst scx scy.
    destruct sc as [st ca]. apply key_leb_same_group in Hle.
    destruct (decide (mx = my)) as [->|Hne]; [done|lia]. }
  assert (month r ∈ fmap snd Gk) as Hin.
  { apply Hmem. by apply (list_elem_of_fmap_2 month_key) in Hr. }
  apply list_elem_of_lookup in Hin as [j Hj].
  exists (fmap snd Gk), j. split; [split; [exact Hsorted | exact Hmem] | exact Hj].
Qed.

Lemma growth_at_series T sc ms j m p i :
  series_months T sc ms -> ms !! j = Some m ->
  series_keys T !! i = Some (sc, m) ->
  growth_at p (sums_of T) i ((sc, m), monthly_total T (sc, m))
  = lag_growth (monthly_total T (sc, m))
               ((fun m0 => monthly_total T (sc, m0)) <$> period_back ms j p).
Proof.
  intros Hms Hj Hi. pose proof (series_keys_group T sc ms Hms) as HG.
  unfold growth_at, transform_at. cbn [fst snd].
  set (h := fun k : string * string * Z => (k, monthly_total T k)).
  assert (forall l : list (string * string * Z),
            matching (fun x : string * string * Z * Z => x.1.1) sc (fmap h l)
            = fmap h (matching fst sc l)) as Hcomm.
  { intros l. symmetry.
    apply (map_matching_compose h (fun x : string * string * Z * Z => x.1.1)). }
  unfold sums_of. fold h. rewrite <- fmap_take, !Hcomm, HG, length_fmap.
  rewrite <- !list_fmap_compose.
  pose proof (lookup_in_group fst (series_keys T) i (sc, m) Hi) as Hpos.
  cbn [fst] in Hpos. rewrite HG in Hpos.
  set (pos := length (matching fst sc (take i (series_keys T)))) in *.
  rewrite list_lookup_fmap in Hpos.
  destruct (ms !! pos) as [m'|] eqn:Hm'; [|done]. simpl in Hpos.
  injection Hpos as ->.
  assert (pos = j) as ->.
  { eapply NoDup_lookup; [|exact Hm'|exact Hj].
    apply StronglySorted_lt_NoDup, Hms. }
  set (X := (fun x => fint x.2) ∘ h ∘ (fun m0 => (sc, m0)) <$> ms).
  assert (X !! j = Some (fint (monthly_total T (sc, m)))) as HX
    by (unfold X; by rewrite list_lookup_fmap, Hj).
  rewrite (nth_lookup_Some _ _ _ _ (lookup_pct_change p X j _ HX)).
  assert (period_back X j p
          = (fun m0 => fint (monthly_total T (sc, m0))) <$> period_back ms j p) as ->.
  { unfold period_back. destruct (j <? p)%nat; [done|].
    unfold X. by rewrite list_lookup_fmap. }
  destruct (period_back ms j p) as [m0|]; [done|].
  cbn [fmap option_fmap option_map from_option lag_growth].
  by rewrite fdiv_NaN_r.
Qed.

Lemma growth_of_attach (data : list rolled_row) (x : rolled_row) ms j :
  let T := fmap r_base data in
  let sc := state_category (r_base x) in
  let m := month (r_base x) in
  let G := fun p =>
    lag_growth (monthly_total T (sc, m))
               ((fun m0 => monthly_total T (sc, m0)) <$> period_back ms j p) in
  let r := attach_growth (growth_columns (monthly_sums data)) x in
  x ∈ data -> series_months T sc ms -> ms !! j = Some m ->
  g_base r = x
  /\ yoy_growth r = G 12%nat /\ qoq_growth r = G 3%nat /\ mom_growth r = G 1%nat.
Proof.
  intros T sc m G r Hx Hms Hj. unfold r, attach_growth.
  assert (month_key (r_base x) = (sc, m)) as Hk by done.
  assert ((sc, m) ∈ series_keys T) as Hin.
  { apply elem_of_series_keys. rewrite <- Hk. unfold T.
    rewrite <- list_fmap_compose.
    by apply (list_elem_of_fmap_2 (month_key ∘ r_base)). }
  apply list_elem_of_lookup in Hin as [i Hi].
  rewrite monthly_sums_sums_of. fold T. rewrite Hk.
  set (M := monthly_at (sums_of T) i ((sc, m), monthly_total T (sc, m))).
  assert (growth_columns (sums_of T) !! i = Some M) as HM.
  { rewrite growth_columns_imap, list_lookup_imap. unfold sums_of at 2.
    by rewrite list_lookup_fmap, Hi. }
  assert (matching m_key (sc, m) (growth_columns (sums_of T)) = [M]) as ->.
  { apply (matching_singleton m_key (growth_columns (sums_of T)) M).
    - unfold T. rewrite <- monthly_sums_sums_of. apply NoDup_m_key_monthly.
    - by eapply list_elem_of_lookup_2. }
  cbn [head g_base yoy_growth qoq_growth mom_growth]. unfold M.
  cbn [monthly_at m_yoy_growth m_qoq_growth m_mom_growth]. unfold G.
  by rewrite !(growth_at_series T sc ms j m _ i Hms Hj Hi).
Qed.

Lemma growth_of_row (data : list rolled_row) (r : grown_row) ms j :
  let T := fmap r_base data in
  let sc := state_category (g_row r) in
  let m := month (g_row r) in
  let G := fun p =>
    lag_growth (monthly_total T (sc, m))
               ((fun m0 => monthly_total T (sc, m0)) <$> period_back ms j p) in
  r ∈ growth_rates_of data ->
  series_months T sc ms -> ms !! j = Some m ->
  yoy_growth r = G 12%nat /\ qoq_growth r = G 3%nat /\ mom_growth r = G 1%nat.
Proof.
  intros T sc m G Hr. rewrite growth_rates_of_map in Hr.
  apply list_elem_of_fmap in Hr as (x & Er & Hx).
  pose proof (growth_of_attach data x ms j) as H. cbn zeta in H.
  rewrite <- Er in H. unfold G, sc, m, T, g_row.
  intros Hms Hj.
  assert (g_base r = x) as Eb.
  { rewrite Er. unfold attach_growth. by destruct (head _). }
  rewrite Eb in *. by apply H.
Qed.

Lemma lag_growth_spec (cur prev : Z) :
  lag_growth cur (Some prev) = spec_growth cur prev.
Proof.
  unfold lag_growth, spec_growth, fint, fdiv, hundred, fint.
  rewrite !Qc_sgn_of_Z. destruct (Z.eqb_spec (Z.sgn prev) 0) as [E|E].
  - assert (prev = 0) as -> by lia. rewrite Z.sub_0_r. by destruct cur.
  - cbn [fsub fopp fadd fmul]. f_equal.
    replace (cur - prev) with (cur + - prev) by lia.
    rewrite Qc_of_Z_add.
    replace (Qc_of_Z (- prev)) with (- Qc_of_Z prev)%Qc
      by (apply Qc_is_canon; unfold Qcopp, Q2Qc, Qc_of_Z; cbn [this];
          by rewrite Qred_correct, inject_Z_opp).
    assert (Qc_of_Z prev <> 0%Qc) as Hp by (apply Qc_of_Z_nonzero; lia).
    rewrite Qc_of_Z_1. field. done.
Qed.

Lemma lag_growth_zero (cur : Z) :
  lag_growth cur (Some 0) = finf (Z.sgn cur).
Proof. by destruct cur. Qed.

Lemma nanmean_skipna (xs : list fval) : nanmean xs = nanmean (List.filter notna xs).
Proof.
  unfold nanmean. cbn zeta.
  assert (List.filter notna (List.filter notna xs) = List.filter notna xs) as ->; [|done].
  induction xs as [|x xs IH]; [done|]. cbn [List.filter].
  destruct (notna x) eqn:E; [|done]. cbn [List.filter]. by rewrite E, IH.
Qed.

Lemma foldl_fadd_PInf (acc : fval) (ys : list fval) :
  Forall (fun y => y <> NaN /\ y <> NInf) ys ->
  acc <> NaN -> acc <> NInf -> acc = PInf \/ PInf ∈ ys ->
  foldl fadd acc ys = PInf.
Proof.
  intros Hys. revert acc. induction Hys as [|y ys [Hy1 Hy2] _ IH]; intros acc Ha1 Ha2 Hp.
  - destruct Hp as [->|Hp]; [done|]. by apply elem_of_nil in Hp.
  - cbn [foldl]. apply IH.
    + by destruct acc, y.
    + by destruct acc, y.
    + destruct Hp as [->|Hp]; [left; by destruct y|].
      apply elem_of_cons in Hp as [<-|Hp]; [left; by destruct acc|by right].
Qed.

(** A mean over values with [+inf] and without [-inf] is [+inf]: an
    infinity is not a missing value and is not skipped. *)
Lemma nanmean_PInf (xs : list fval) : PInf ∈ xs -> NInf ∉ xs -> nanmean xs = PInf.
Proof.
  intros Hp Hn. unfold nanmean. cbn zeta.
  assert (PInf ∈ List.filter notna xs) as Hp'.
  { apply list_elem_of_In, filter_In. split; [by apply list_elem_of_In|done]. }
  assert (Forall (fun y => y <> NaN /\ y <> NInf) (List.filter notna xs)) as Hall.
  { apply Forall_forall. intros y Hy. apply list_elem_of_In, filter_In in Hy as [Hy E].
    split; [by intros ->|]. intros ->. by apply Hn, list_elem_of_In. }
  destruct (List.filter notna xs) as [|y ys] eqn:E; [by apply elem_of_nil in Hp'|].
  rewrite <- E in *. unfold fsum.
  rewrite (foldl_fadd_PInf fzero _ Hall) by (done || by right).
  rewrite E. cbn [length]. by destruct (length ys).
Qed.

Lemma lookup_groupby_agg_map {A V} (key : A -> string) (val : A -> V)
    (agg : list V -> fval) (tbl : list A) (c : string) :
  c ∈ fmap key tbl ->
  (list_to_map (groupby_agg string_leb key val agg tbl) : gmap string fval) !! c
  = Some (agg (fmap val (matching key c tbl))).
Proof.
  intros Hc. apply elem_of_list_to_map_1.
  - rewrite map_fst_groupby_agg. apply NoDup_group_keys.
  - unfold groupby_agg.
    apply (list_elem_of_fmap_2
             (fun k => (k, agg (fmap val (matching key k tbl))))).
    by apply elem_of_group_keys.
Qed.

Section growth_theorems.
Variable Qc_sqrt : Qc -> Qc.

Lemma processed_row_growth raw_data r ms j :
  let T := fmap p_row (processed_table Qc_sqrt raw_data) in
  let sc := state_category (p_row r) in
  let m := month (p_row r) in
  let G := fun p =>
    lag_growth (monthly_total T (sc, m))
               ((fun m0 => monthly_total T (sc, m0)) <$> period_back ms j p) in
  r ∈ processed_table Qc_sqrt raw_data ->
  series_months T sc ms -> ms !! j = Some m ->
  yoy_growth (p_grown r) = G 12%nat
  /\ qoq_growth (p_grown r) = G 3%nat
  /\ mom_growth (p_grown r) = G 1%nat.
Proof.
  intros T sc m G Hr Hms Hj.
  set (rolled := rolling_averages_of (fmap add_time_columns raw_data)).
  assert (fmap r_base rolled = T) as HT.
  { unfold T, rolled. rewrite map_p_row_processed_table.
    apply map_r_base_rolling_columns. }
  assert (p_grown r ∈ growth_rates_of rolled) as Hg.
  { rewrite <- (map_s_base_market_shares_of (growth_rates_of rolled)).
    rewrite <- (map_p_base_performance Qc_sqrt (market_shares_of (growth_rates_of rolled))).
    rewrite <- list_fmap_compose.
    by apply (list_elem_of_fmap_2 (s_base ∘ p_base)). }
  pose proof (growth_of_row rolled (p_grown r) ms j) as H. cbn zeta in H.
  rewrite HT in H. by apply H.
Qed.


(** C1, amended: a growth value whose prior period (at lag 12, 3 or 1) is
    missing is missing; one whose prior-period sum is zero is missing only
    when the current sum is zero too, and is otherwise the infinity of the
    sign of the current sum; the means of the metrics summary skip missing
    values, and do not skip an infinity. *)
Theorem growth_against_zero_or_missing raw_data r ms j :
  let tbl := processed_table Qc_sqrt raw_data in
  let T := fmap p_row tbl in
  let sc := state_category (p_row r) in
  let m := month (p_row r) in
  r ∈ tbl -> series_months T sc ms -> ms !! j = Some m ->
  (forall p g,
      (p, g) ∈ [(12%nat, yoy_growth (p_grown r)); (3%nat, qoq_growth (p_grown r));
                (1%nat, mom_growth (p_grown r))] ->
      ((j < p)%nat -> g = NaN)
      /\ (forall m0, (p <= j)%nat -> ms !! (j - p)%nat = Some m0 ->
          monthly_total T (sc, m0) = 0 ->
          g = match monthly_total T (sc, m) with
              | Z0 => NaN
              | Zpos _ => PInf
              | Zneg _ => NInf
              end))
  /\ (forall c, c ∈ fmap (fun r => category (p_row r)) tbl ->
      category_yoy_growth (calculate_growth_metrics Qc_sqrt tbl) !! c
      = Some (fillna fzero
                (nanmean (List.filter notna
                            (fmap (fun r => yoy_growth (p_grown r))
                                  (matching (fun r => category (p_row r)) c tbl))))))
  /\ (forall s, s ∈ fmap (fun r => state (p_row r)) tbl ->
      state_yoy_growth (calculate_growth_metrics Qc_sqrt tbl) !! s
      = Some (fillna fzero
                (nanmean (List.filter notna
                            (fmap (fun r => yoy_growth (p_grown r))
                                  (matching (fun r => state (p_row r)) s tbl))))))
  /\ (forall xs, PInf ∈ xs -> NInf ∉ xs -> nanmean xs = PInf).
Proof.
  intros tbl T sc m Hr Hms Hj.
  destruct (processed_row_growth raw_data r ms j Hr Hms Hj) as (Hy & Hq & Hm).
  fold tbl T sc m in Hy, Hq, Hm.
  split; [|split; [|split]].
  - assert (forall p g,
              g = lag_growth (monthly_total T (sc, m))
                    ((fun m0 => monthly_total T (sc, m0)) <$> period_back ms j p) ->
              ((j < p)%nat -> g = NaN)
              /\ (forall m0, (p <= j)%nat -> ms !! (j - p)%nat = Some m0 ->
                  monthly_total T (sc, m0) = 0 ->
                  g = match monthly_total T (sc, m) with
                      | Z0 => NaN
                      | Zpos _ => PInf
                      | Zneg _ => NInf
                      end)) as Hlag.
    { intros p g ->. unfold period_back. split.
      - intros Hlt. by destruct (Nat.ltb_spec j p); [|lia].
      - intros m0 Hge Hm0 Hz. destruct (Nat.ltb_spec j p); [lia|].
        rewrite Hm0. cbn [fmap option_fmap option_map]. rewrite Hz, lag_growth_zero.
        by destruct (monthly_total T (sc, m)). }
    intros p g Hpg. apply Hlag.
    repeat (apply elem_of_cons in Hpg as [[= -> ->]|Hpg]; [done|]).
    by apply elem_of_nil in Hpg.
  - intros c Hc. unfold calculate_growth_metrics. cbn [category_yoy_growth].
    unfold mean_yoy_by. rewrite (lookup_groupby_agg_map _ _ _ _ c Hc).
    by rewrite <- nanmean_skipna.
  - intros s Hs. unfold calculate_growth_metrics. cbn [state_yoy_growth].
    unfold mean_yoy_by. rewrite (lookup_groupby_agg_map _ _ _ _ s Hs).
    by rewrite <- nanmean_skipna.
  - apply nanmean_PInf.
Qed.
End growth_theorems.

(** ** The metrics summary *)

Lemma foldl_max_spec (x : Z) (xs : list Z) :
  foldl Z.max x xs ∈ x :: xs /\ Forall (fun z => z <= foldl Z.max x xs) (x :: xs).
Proof.
  revert x. induction xs as [|z xs IH]; intros x; cbn [foldl].
  - split; [left|]. by repeat constructor.
  - destruct (IH (Z.max x z)) as [Hin Hall]. split.
    + apply elem_of_cons in Hin as [E|Hin]; [|by do 2 right].
      rewrite E. destruct (Z.max_spec x z) as [[_ ->]|[_ ->]]; [right|]; left.
    + apply Forall_cons_1 in Hall as [Hm Hall].
      repeat constructor; [lia|lia|done].
Qed.

Lemma column_max_latest (xs : list Z) (y : Z) :
  y ∈ xs -> (forall x, x ∈ xs -> x <= y) -> column_max xs = Some y.
Proof.
  intros Hy Hmax. destruct xs as [|x xs]; [by apply elem_of_nil in Hy|].
  cbn [column_max]. f_equal.
  destruct (foldl_max_spec x xs) as [Hin Hall].
  apply Z.le_antisymm; [by apply Hmax|].
  eapply Forall_forall in Hall; [exact Hall|done].
Qed.

Lemma yearly_total_Some (data : list processed_row) (y : Z) :
  yearly_total (Some y) data = year_total data y.
Proof.
  unfold yearly_total, year_total. do 2 f_equal.
  apply list_filter_iff. intros r. split; [by intros [= ->]|by intros ->].
Qed.

Section metrics_theorems.
Variable Qc_sqrt : Qc -> Qc.

(** C7: with [y] the latest calendar year of the table, [total_yoy_growth]
    is (sum of year [y] − sum of year [y − 1]) / sum of year [y − 1] × 100
    when the table has rows of year [y − 1], and 0 when it has none; with
    sums 1000 and 1200 it is 20. *)
Theorem total_yoy_growth_formula (data : list processed_row) (y : Z) :
  (exists r, r ∈ data /\ year (p_row r) = y) ->
  (forall r, r ∈ data -> year (p_row r) <= y) ->
  let curr := year_total data y in
  let prev := year_total data (y - 1) in
  let total := total_yoy_growth (calculate_growth_metrics Qc_sqrt data) in
  ((exists r, r ∈ data /\ year (p_row r) = y - 1) ->
   total = fmul (fdiv (fint (curr - prev)) (fint prev)) hundred
   /\ (prev = 1000 -> curr = 1200 -> total = Fin (Qc_of_Z 20)))
  /\ ((forall r, r ∈ data -> year (p_row r) <> y - 1) -> total = Fin (Qc_of_Z 0)).
Proof.
  intros (r0 & Hr0 & Hy0) Hmax curr prev total.
  assert (column_max (fmap (fun r => year (p_row r)) data) = Some y) as Hcm.
  { apply column_max_latest.
    - rewrite <- Hy0. by apply (list_elem_of_fmap_2 (fun r => year (p_row r))).
    - intros x Hx. apply list_elem_of_fmap in Hx as (r & -> & Hr). by apply Hmax. }
  unfold total, calculate_growth_metrics. cbn [total_yoy_growth]. rewrite Hcm.
  cbn [fmap option_fmap option_map].
  assert (filter (fun r => Some (year (p_row r)) = Some (y - 1)) data
          = filter (fun r => year (p_row r) = y - 1) data) as ->.
  { apply list_filter_iff. intros r. split; [by intros [= ->]|by intros ->]. }
  rewrite !yearly_total_Some. fold curr prev. split.
  - intros (r1 & Hr1 & Hy1).
    assert (r1 ∈ filter (fun r => year (p_row r) = y - 1) data) as Hin
      by (by apply list_elem_of_filter).
    destruct (filter (fun r => year (p_row r) = y - 1) data) as [|r2 rest];
      [by apply elem_of_nil in Hin|].
    split; [done|]. intros -> ->. unfold fint, fdiv, hundred, fint.
    change (Qc_sgn (Qc_of_Z 1000) =? 0) with false. cbn [fmul].
    f_equal. by apply Qc_is_canon.
  - intros Hnone.
    assert (filter (fun r => year (p_row r) = y - 1) data = []) as ->; [|done].
    clear -Hnone. induction data as [|r data IH]; [done|].
    rewrite filter_cons_False by (apply Hnone; left).
    apply IH. intros r' Hr'. apply Hnone. by right.
Qed.

(** On a table without rows the total growth is 0 as well. *)
Lemma total_yoy_growth_empty :
  total_yoy_growth (calculate_growth_metrics Qc_sqrt []) = Fin (Qc_of_Z 0).
Proof. done. Qed.
End metrics_theorems.

(** ** The properties on the example tables *)


Lemma example_two_years_months :
  fmap month_key (fmap p_row (processed_table Qc_sqrt_approx example_two_years))
  = fmap (fun m => ("Karnataka"%string, "2W"%string, m))
         [600; 601; 602; 603; 604; 605; 606; 607; 608; 609; 610; 611; 612].
Proof. vm_compute. reflexivity. Qed.

Lemma example_zero_month_months :
  fmap month_key (fmap p_row (processed_table Qc_sqrt_approx example_zero_month))
  = fmap (fun m => ("Karnataka"%string, "2W"%string, m)) [600; 601].
Proof. vm_compute. reflexivity. Qed.

Lemma series_months_intro T sc ms :
  StronglySorted Z.lt ms -> fmap month_key T = fmap (fun m => (sc, m)) ms ->
  series_months T sc ms.
Proof.
  intros Hs E. split; [done|]. intros m. rewrite E. split.
  - intros Hm. by apply (list_elem_of_fmap_2 (fun m => (sc, m))).
  - intros Hm. apply list_elem_of_fmap in Hm as (m' & [= ->] & Hm'). done.
Qed.

Lemma Qc_sgn_0 (q : Qc) : Qc_sgn q = 0 -> q = 0%Qc.
Proof.
  intros Hq. apply Qc_is_canon. destruct q as [[n d] Hc]. unfold Qc_sgn in Hq.
  cbn in Hq. assert (n = 0) as -> by lia. reflexivity.
Qed.

Lemma fval_eqb_eq (x y : fval) : fval_eqb x y = true -> x = y.
Proof.
  destruct x as [a| | |], y as [b| | |]; cbn [fval_eqb]; try done.
  intros Hab. apply Z.eqb_eq, Qc_sgn_0 in Hab. f_equal.
  replace a with (a - b + b)%Qc by ring. rewrite Hab. ring.
Qed.

(** The calendar columns of the row found at a position of a processed
    table whose rows are known. *)
Lemma p_row_at Qc_sqrt raw_data i r (x : timed_row) :
  processed_table Qc_sqrt raw_data !! i = Some r ->
  fmap p_row (processed_table Qc_sqrt raw_data) !! i = Some x ->
  p_row r = x.
Proof. intros Hr. rewrite list_lookup_fmap, Hr. by intros [= ->]. Qed.


(** C1, as stated, fails: with no registration in January and 10 in
    February, the month-over-month growth on the February row is [+inf], not
    a missing value, and the mean monthly growth of the summary is [+inf]. *)
Lemma growth_infinite_on_zero_prior :
  fmap (fun r => mom_growth (p_grown r))
       (processed_table Qc_sqrt_approx example_zero_month) = [NaN; PInf]
  /\ monthly_total (fmap p_row (processed_table Qc_sqrt_approx example_zero_month))
                   ("Karnataka"%string, "2W"%string, 600) = 0
  /\ monthly_growth
       (calculate_growth_metrics Qc_sqrt_approx
          (processed_table Qc_sqrt_approx example_zero_month)) = PInf.
Proof. repeat split; vm_compute; reflexivity. Qed.

Lemma growth_against_zero_or_missing_witness :
  exists r,
    processed_table Qc_sqrt_approx example_zero_month !! 1%nat = Some r
    /\ mom_growth (p_grown r) = PInf.
Proof.
  take_row (processed_table Qc_sqrt_approx example_zero_month) 1%nat r E.
  exists r. split; [reflexivity|].
  assert (p_row r = add_time_columns (example_row 18293 10)) as Hrow
    by (apply (p_row_at _ _ _ _ _ E); vm_compute; reflexivity).
  destruct (growth_against_zero_or_missing Qc_sqrt_approx example_zero_month r
              [600; 601] 1%nat) as [H _].
  - eapply list_elem_of_lookup_2, E.
  - rewrite Hrow. apply series_months_intro; [|exact example_zero_month_months].
    repeat constructor; lia.
  - rewrite Hrow. reflexivity.
  - destruct (H 1%nat (mom_growth (p_grown r))) as [_ Hz].
    + do 2 right. left.
    + rewrite (Hz 600 (le_n 1) eq_refl); rewrite Hrow; vm_compute; reflexivity.
Defined.



Lemma total_yoy_growth_formula_witness :
  total_yoy_growth
    (calculate_growth_metrics Qc_sqrt_approx
       (processed_table Qc_sqrt_approx example_two_years))
  = Fin (Qc_of_Z 20).
Proof.
  assert (fmap (fun r => year (p_row r))
               (processed_table Qc_sqrt_approx example_two_years)
          = replicate 12 2020 ++ [2021]) as Hyears by (vm_compute; reflexivity).
  assert (forall y, (exists i, (replicate 12 2020 ++ [2021]) !! i = Some y) ->
            exists r, r ∈ processed_table Qc_sqrt_approx example_two_years
                      /\ year (p_row r) = y) as Hex.
  { intros y [i Hi]. rewrite <- Hyears, list_lookup_fmap in Hi.
    destruct (_ !! i) as [r|] eqn:E; [|done]. injection Hi as <-.
    exists r. split; [by eapply list_elem_of_lookup_2|done]. }
  destruct (total_yoy_growth_formula Qc_sqrt_approx
              (processed_table Qc_sqrt_approx example_two_years) 2021) as [H _].
  - apply Hex. by exists 12%nat.
  - intros r Hr.
    apply (list_elem_of_fmap_2 (fun r => year (p_row r))) in Hr.
    rewrite Hyears in Hr. apply elem_of_app in Hr as [Hr|Hr].
    + apply elem_of_replicate in Hr as [-> _]. lia.
    + apply list_elem_of_singleton in Hr as ->. lia.
  - destruct H as [_ H].
    + apply Hex. by exists 0%nat.
    + apply H; vm_compute; reflexivity.
Defined.


Lemma process_twice_same_table_witness :
  exists out1 st1 out2 st2 tbl,
    process_registration_data Qc_sqrt_approx 0%nat [FrameRaw example_zero_month]
    = Some (out1, st1)
    /\ process_registration_data Qc_sqrt_approx 0%nat st1 = Some (out2, st2)
    /\ out1 <> out2
    /\ st2 !! out1 = Some (FrameProcessed tbl)
    /\ st2 !! out2 = Some (FrameProcessed tbl).
Proof.
  destruct (process_twice_same_table Qc_sqrt_approx
              [FrameRaw example_zero_month] 0%nat example_zero_month eq_refl)
    as (out1 & st1 & out2 & st2 & tbl & H1 & H2 & Hne & Ho1 & Ho2 & _).
  exists out1, st1, out2, st2, tbl. repeat split; assumption.
Defined.

(** * Further properties of the code *)

(** ** Signs and order of rationals *)

Lemma Qc_sgn_neg (q : Qc) : Qc_sgn q < 0 <-> (q < 0)%Qc.
Proof.
  destruct q as [[n d] Hc]. unfold Qc_sgn, Qclt, Qlt. cbn [this Qnum Qden].
  change (this 0%Qc) with (0 # 1)%Q. cbn [Qnum Qden]. lia.
Qed.

Lemma Qc_sgn_pos (q : Qc) : 0 < Qc_sgn q <-> (0 < q)%Qc.
Proof.
  destruct q as [[n d] Hc]. unfold Qc_sgn, Qclt, Qlt. cbn [this Qnum Qden].
  change (this 0%Qc) with (0 # 1)%Q. cbn [Qnum Qden]. lia.
Qed.

Lemma Qc_sgn_zero (q : Qc) : Qc_sgn q = 0 <-> q = 0%Qc.
Proof. split; [apply Qc_sgn_0|by intros ->]. Qed.

Lemma Qeq_sgn (p q : Q) : (p == q)%Q -> Z.sgn (Qnum p) = Z.sgn (Qnum q).
Proof.
  unfold Qeq. intros E. apply (f_equal Z.sgn) in E. rewrite !Z.sgn_mul in E.
  change (Z.sgn (QDen q)) with 1 in E. change (Z.sgn (QDen p)) with 1 in E. lia.
Qed.

Lemma Qc_sgn_mul (a b : Qc) : Qc_sgn (a * b)%Qc = Qc_sgn a * Qc_sgn b.
Proof.
  unfold Qc_sgn, Qcmult, Q2Qc. cbn [this].
  rewrite (Qeq_sgn _ _ (Qred_correct (a * b))). cbn [Qmult Qnum].
  apply Z.sgn_mul.
Qed.

Lemma Qc_sgn_opp (a : Qc) : Qc_sgn (- a)%Qc = - Qc_sgn a.
Proof.
  replace (- a)%Qc with (Qc_of_Z (-1) * a)%Qc
    by (replace (Qc_of_Z (-1)) with (- (1))%Qc by (by apply Qc_is_canon); ring).
  rewrite Qc_sgn_mul. change (Qc_sgn (Qc_of_Z (-1))) with (-1). lia.
Qed.

Lemma Qc_sgn_inv (a : Qc) : Qc_sgn (/ a)%Qc = Qc_sgn a.
Proof.
  destruct (decide (a = 0%Qc)) as [->|Ha]; [done|].
  pose proof (Qc_sgn_mul a (/ a)) as H. rewrite Qcmult_inv_r in H by done.
  change (Qc_sgn 1%Qc) with 1 in H.
  assert (-1 <= Qc_sgn a <= 1) by (unfold Qc_sgn; lia).
  assert (-1 <= Qc_sgn (/ a)%Qc <= 1) by (unfold Qc_sgn; lia).
  nia.
Qed.

Lemma Qc_sgn_sub_lt (a b : Qc) : Qc_sgn (a - b)%Qc < 0 <-> (a < b)%Qc.
Proof.
  rewrite Qc_sgn_neg, (Qclt_minus_iff a b), (Qclt_minus_iff (a - b) 0).
  replace (0 + - (a - b))%Qc with (b + - a)%Qc by ring. done.
Qed.

Lemma fltb_Fin (a b : Qc) : fltb (Fin a) (Fin b) = true <-> (a < b)%Qc.
Proof. cbn [fltb]. rewrite Z.ltb_lt. apply Qc_sgn_sub_lt. Qed.

Lemma fltb_irrefl (x : fval) : fltb x x = false.
Proof.
  destruct x as [a| | |]; try done. apply not_true_is_false.
  rewrite fltb_Fin. intros H. by apply Qclt_not_eq in H.
Qed.

Lemma fltb_trans (x y z : fval) :
  fltb x y = true -> fltb y z = true -> fltb x z = true.
Proof.
  destruct x as [a| | |], y as [b| | |], z as [c| | |]; try done.
  rewrite !fltb_Fin. apply Qclt_trans.
Qed.

Lemma fltb_asym (x y : fval) : fltb x y = true -> fltb y x = false.
Proof.
  intros Hxy. apply not_true_is_false. intros Hyx.
  pose proof (fltb_trans x y x Hxy Hyx) as H. by rewrite fltb_irrefl in H.
Qed.

Lemma Qc_of_Z_lt (a b : Z) : (Qc_of_Z a < Qc_of_Z b)%Qc <-> a < b.
Proof. unfold Qclt, Qlt. cbn. lia. Qed.

Lemma Qc_of_Z_le (a b : Z) : (Qc_of_Z a <= Qc_of_Z b)%Qc <-> a <= b.
Proof. unfold Qcle, Qle. cbn. lia. Qed.

(** ** Growth at the 3-period and 1-period lags *)

Section more_growth.
Variable Qc_sqrt : Qc -> Qc.

(** X1: on a row whose month is the [j]-th of its (state, category) series,
    [qoq_growth] is missing for [j < 3] and otherwise the percent change of
    the month's sum against the sum of the month three places earlier in the
    series (three periods, whatever calendar months they are); [mom_growth]
    is the same at one place. *)
Theorem qoq_mom_growth_lags raw_data r ms j :
  let T := fmap p_row (processed_table Qc_sqrt raw_data) in
  let sc := state_category (p_row r) in
  let m := month (p_row r) in
  r ∈ processed_table Qc_sqrt raw_data ->
  series_months T sc ms -> ms !! j = Some m ->
  ((j < 3)%nat -> qoq_growth (p_grown r) = NaN)
  /\ (forall m3, (3 <= j)%nat -> ms !! (j - 3)%nat = Some m3 ->
      qoq_growth (p_grown r)
      = fmul (fdiv (fint (monthly_total T (sc, m) - monthly_total T (sc, m3)))
                   (fint (monthly_total T (sc, m3)))) hundred)
  /\ (j = 0%nat -> mom_growth (p_grown r) = NaN)
  /\ (forall m1, (1 <= j)%nat -> ms !! (j - 1)%nat = Some m1 ->
      mom_growth (p_grown r)
      = fmul (fdiv (fint (monthly_total T (sc, m) - monthly_total T (sc, m1)))
                   (fint (monthly_total T (sc, m1)))) hundred).
Proof.
  intros T sc m Hr Hms Hj.
  destruct (processed_row_growth Qc_sqrt raw_data r ms j Hr Hms Hj) as (_ & Hq & Hm).
  fold T sc m in Hq, Hm. unfold period_back in Hq, Hm.
  split; [|split; [|split]].
  - intros Hlt. rewrite Hq. by destruct (Nat.ltb_spec j 3); [|lia].
  - intros m3 Hge Hm3. rewrite Hq. destruct (Nat.ltb_spec j 3); [lia|].
    rewrite Hm3. apply lag_growth_spec.
  - intros ->. by rewrite Hm.
  - intros m1 Hge Hm1. rewrite Hm. destruct (Nat.ltb_spec j 1); [lia|].
    rewrite Hm1. apply lag_growth_spec.
Qed.

(** ** Daily totals *)


(** ** Performance indicators *)

Lemma processed_row_performance raw_data r :
  r ∈ processed_table Qc_sqrt raw_data ->
  let avg := registrations_30d_avg (p_rolled r) in
  let yoy := yoy_growth (p_grown r) in
  performance_vs_30d r
  = fmul (fdiv (fsub (fint (registrations (p_row r))) avg) avg) hundred
  /\ is_above_average r = fgtb (performance_vs_30d r) fzero
  /\ is_high_growth r = fgtb yoy (fint 15)
  /\ is_declining r = fltb yoy (fint (-5)).
Proof.
  intros Hr. unfold processed_table in Hr.
  rewrite performance_indicators_of_imap in Hr.
  apply list_elem_of_lookup in Hr as [i Hi]. rewrite list_lookup_imap in Hi.
  destruct (_ !! i) as [x|]; [|done]. simpl in Hi. by injection Hi as <-.
Qed.

(** X3: a row is never flagged both as high growth and as declining, and
    with a missing [yoy_growth] it carries neither flag. *)
Theorem growth_flags_exclusive raw_data r :
  r ∈ processed_table Qc_sqrt raw_data ->
  (is_high_growth r && is_declining r = false)
  /\ (yoy_growth (p_grown r) = NaN ->
      is_high_growth r = false /\ is_declining r = false).
Proof.
  intros Hr.
  destruct (processed_row_performance raw_data r Hr) as (_ & _ & Hh & Hd).
  cbn zeta in Hh, Hd. rewrite Hh, Hd. split.
  - unfold fgtb.
    destruct (fltb (fint 15) (yoy_growth (p_grown r))) eqn:E1; [|done].
    destruct (fltb (yoy_growth (p_grown r)) (fint (-5))) eqn:E2; [|done].
    pose proof (fltb_trans _ _ _ E1 E2) as H. by vm_compute in H.
  - by intros ->.
Qed.

(** X4: where the 30-day average of a row is not negative, the row is
    flagged above average exactly when its registrations exceed that
    average. *)
Theorem above_average_iff raw_data r a :
  r ∈ processed_table Qc_sqrt raw_data ->
  registrations_30d_avg (p_rolled r) = Fin a -> (0 <= a)%Qc ->
  is_above_average r = true <-> (a < Qc_of_Z (registrations (p_row r)))%Qc.
Proof.
  intros Hr Havg Ha.
  destruct (processed_row_performance raw_data r Hr) as (Hp & Hab & _ & _).
  cbn zeta in Hp. rewrite Hab, Hp, Havg. clear Hp Hab.
  set (n := Qc_of_Z (registrations (p_row r))).
  unfold fint. fold n. cbn [fsub fopp fadd fdiv].
  rewrite <- (Qc_sgn_sub_lt a n).
  assert (Qc_sgn (a - n)%Qc = - Qc_sgn (n + - a)%Qc) as ->.
  { rewrite <- Qc_sgn_opp. f_equal. ring. }
  destruct (Z.eqb_spec (Qc_sgn a) 0) as [E|E].
  - destruct (Qc_sgn (n + - a)%Qc) eqn:Es; cbn; split; (done || lia).
  - assert (0 < Qc_sgn a) as Hpos.
    { apply Qcle_lt_or_eq in Ha as [Ha| <-]; [by apply Qc_sgn_pos|done]. }
    unfold hundred, fint, fgtb, fzero. cbn [fmul fltb].
    replace (Qc_of_Z 0 - (n + - a) / a * Qc_of_Z 100)%Qc
      with (- ((n + - a) * / a * Qc_of_Z 100))%Qc
      by (rewrite Qc_of_Z_0; unfold Qcdiv; ring).
    rewrite Qc_sgn_opp, !Qc_sgn_mul, Qc_sgn_inv.
    change (Qc_sgn (Qc_of_Z 100)) with 1. rewrite Z.ltb_lt.
    assert (Qc_sgn a = 1) as -> by (unfold Qc_sgn in *; lia). lia.
Qed.
End more_growth.

(** ** Rolling averages and performance on every row *)

Lemma mean_Z_Fin (W : list Z) :
  W <> [] -> mean_Z W = Fin (Qc_of_Z (sumZ W) / Qc_of_Z (Z.of_nat (length W)))%Qc.
Proof.
  intros HW. unfold mean_Z, fint, fdiv. rewrite Qc_sgn_of_Z.
  destruct (Z.eqb_spec (Z.sgn (Z.of_nat (length W))) 0) as [E|_]; [|done].
  destruct W; [done|]. simpl in E. lia.
Qed.

Lemma sumZ_nonneg (W : list Z) : Forall (fun x => 0 <= x) W -> 0 <= sumZ W.
Proof.
  unfold sumZ. induction 1 as [|x W Hx _ IH]; cbn [foldr]; lia.
Qed.

Lemma mean_Z_nonneg (W : list Z) :
  W <> [] -> Forall (fun x => 0 <= x) W ->
  exists q, mean_Z W = Fin q /\ (0 <= q)%Qc.
Proof.
  intros HW Hall. rewrite (mean_Z_Fin W HW). eexists. split; [done|].
  apply Qcnot_lt_le. rewrite <- Qc_sgn_neg. unfold Qcdiv.
  rewrite Qc_sgn_mul, Qc_sgn_inv, !Qc_sgn_of_Z.
  pose proof (sumZ_nonneg W Hall). nia.
Qed.

Lemma last_n_nonempty {V} (w : nat) (xs : list V) :
  (1 <= w)%nat -> xs <> [] -> last_n w xs <> [].
Proof.
  intros Hw Hxs E. apply (f_equal length) in E. unfold last_n in E.
  rewrite length_drop in E. destruct xs; [done|]. simpl in E. lia.
Qed.

Section more_rolling.
Variable Qc_sqrt : Qc -> Qc.

Lemma group_so_far_nonempty (T : list timed_row) i r :
  T !! i = Some r -> group_so_far T i r <> [].
Proof.
  intros Hi E. apply (f_equal length) in E. unfold group_so_far in E.
  rewrite length_fmap, (matching_take_S _ _ _ _ Hi), length_app in E.
  simpl in E. lia.
Qed.

Lemma group_so_far_registrations (T : list timed_row) i r x :
  x ∈ group_so_far T i r -> exists r', r' ∈ T /\ registrations r' = x.
Proof.
  unfold group_so_far, matching. intros Hx.
  apply list_elem_of_fmap in Hx as (r' & -> & Hr').
  apply list_elem_of_filter in Hr' as [_ Hr'].
  exists r'. split; [|done]. by apply (subseteq_take (S i) T).
Qed.

(** X5: the 7-day and the 30-day rolling average are defined on every row
    (never missing, never infinite), and are not negative when no
    registrations value of the raw table is. *)
Theorem rolling_averages_defined raw_data r :
  r ∈ processed_table Qc_sqrt raw_data ->
  exists a7 a30,
    registrations_7d_avg (p_rolled r) = Fin a7
    /\ registrations_30d_avg (p_rolled r) = Fin a30
    /\ (Forall (fun x => 0 <= raw_registrations x) raw_data ->
        (0 <= a7)%Qc /\ (0 <= a30)%Qc).
Proof.
  intros Hr. apply list_elem_of_lookup in Hr as [i Hi].
  destruct (lookup_processed_rolled Qc_sqrt raw_data i r Hi) as [Hrow Hrolled].
  set (T := fmap p_row (processed_table Qc_sqrt raw_data)) in *.
  assert (forall w, (1 <= w)%nat ->
            transform_at state_category registrations (rolling w 1 mean_Z) NaN T i (p_row r)
            = Fin (Qc_of_Z (sumZ (last_n w (group_so_far T i (p_row r))))
                   / Qc_of_Z (Z.of_nat (length (last_n w (group_so_far T i (p_row r))))))%Qc
            /\ (Forall (fun x => 0 <= raw_registrations x) raw_data ->
                (0 <= Qc_of_Z (sumZ (last_n w (group_so_far T i (p_row r))))
                      / Qc_of_Z (Z.of_nat (length (last_n w (group_so_far T i (p_row r))))))%Qc))
    as Hw.
  { intros w Hw. rewrite (rolling_mean_at w T i (p_row r) Hw Hrow).
    assert (last_n w (group_so_far T i (p_row r)) <> []) as Hne
      by (apply last_n_nonempty; [done|by apply group_so_far_nonempty]).
    split; [by apply mean_Z_Fin|]. intros Hraw.
    assert (Forall (fun x => 0 <= x) (last_n w (group_so_far T i (p_row r)))) as Hall.
    { apply Forall_forall. intros x Hx. apply (subseteq_drop _ _) in Hx.
      apply group_so_far_registrations in Hx as (r' & Hr' & <-).
      unfold T in Hr'. rewrite map_p_row_processed_table in Hr'.
      unfold sort_values in Hr'. apply elem_of_stable_sort in Hr'.
      apply list_elem_of_fmap in Hr' as (x0 & -> & Hx0).
      by apply (proj1 (Forall_forall _ _) Hraw). }
    destruct (mean_Z_nonneg _ Hne Hall) as (q & Eq & Hq).
    rewrite (mean_Z_Fin _ Hne) in Eq. by injection Eq as <-. }
  destruct (Hw 7%nat ltac:(lia)) as [H7 N7].
  destruct (Hw 30%nat ltac:(lia)) as [H30 N30].
  eexists _, _. rewrite Hrolled. cbn [rolled_at registrations_7d_avg
    registrations_30d_avg]. split; [exact H7|]. split; [exact H30|].
  intros Hraw. split; [by apply N7|by apply N30].
Qed.

(** X6: on the first row of a (state, category) group the performance
    against the 30-day average is 0, or missing when the row has no
    registrations, and the row is not flagged above average. *)
Theorem first_row_performance raw_data i r :
  let T := fmap p_row (processed_table Qc_sqrt raw_data) in
  processed_table Qc_sqrt raw_data !! i = Some r ->
  (forall j r', (j < i)%nat -> T !! j = Some r' ->
                state_category r' <> state_category (p_row r)) ->
  (registrations (p_row r) <> 0 -> performance_vs_30d r = Fin 0%Qc)
  /\ (registrations (p_row r) = 0 -> performance_vs_30d r = NaN)
  /\ is_above_average r = false.
Proof.
  intros T Hi Hfirst.
  destruct (lookup_processed_rolled Qc_sqrt raw_data i r Hi) as [Hrow Hrolled].
  fold T in Hrow, Hrolled.
  assert (registrations_30d_avg (p_rolled r) = fint (registrations (p_row r))) as Havg.
  { rewrite Hrolled. cbn [rolled_at registrations_30d_avg].
    rewrite (rolling_mean_at 30 T i (p_row r)) by (lia || done).
    rewrite (group_so_far_first T i (p_row r) Hrow Hfirst).
    unfold last_n. simpl. apply mean_Z_singleton. }
  destruct (processed_row_performance Qc_sqrt raw_data r) as (Hp & Hab & _ & _);
    [by eapply list_elem_of_lookup_2|].
  cbn zeta in Hp. rewrite Havg in Hp. rewrite Hab, Hp.
  set (n := registrations (p_row r)).
  assert (fsub (fint n) (fint n) = Fin 0%Qc) as ->
    by (unfold fsub, fint; cbn [fopp fadd]; by rewrite Qcplus_opp_r).
  unfold fdiv, fint. rewrite Qc_sgn_of_Z.
  destruct (Z.eqb_spec (Z.sgn n) 0) as [E|E].
  - assert (n = 0) as -> by lia. by repeat split.
  - assert (fmul (Fin (0 / Qc_of_Z n)%Qc) hundred = Fin 0%Qc) as ->.
    { unfold hundred, fint. cbn [fmul]. f_equal; unfold Qcdiv; ring. }
    repeat split; first [done | lia].
Qed.
End more_rolling.

(** ** The other entries of the metrics summary *)

Lemma idxmax_from (s seen : list (string * fval)) (b : string * fval) :
  b ∈ seen -> (forall x, x ∈ seen -> fltb b.2 x.2 = false) ->
  exists kv,
    foldl (fun best kv =>
             match best with
             | None => Some kv
             | Some b => if fltb b.2 kv.2 then Some kv else best
             end) (Some b) s = Some kv
    /\ kv ∈ seen ++ s
    /\ (forall x, x ∈ seen ++ s -> fltb kv.2 x.2 = false).
Proof.
  revert seen b. induction s as [|y s IH]; intros seen b Hb Hmax.
  - exists b. rewrite app_nil_r. by repeat split.
  - cbn [foldl]. destruct (fltb b.2 y.2) eqn:E.
    + destruct (IH (seen ++ [y]) y) as (kv & Hf & Hin & Hall).
      * apply elem_of_app. right. left.
      * intros x Hx. apply elem_of_app in Hx as [Hx|Hx].
        -- apply not_true_is_false. intros Hyx.
           pose proof (fltb_trans _ _ _ E Hyx) as H. by rewrite Hmax in H.
        -- apply list_elem_of_singleton in Hx as ->. apply fltb_irrefl.
      * exists kv. rewrite <- app_assoc in Hin, Hall. by repeat split.
    + destruct (IH (seen ++ [y]) b) as (kv & Hf & Hin & Hall).
      * apply elem_of_app. by left.
      * intros x Hx. apply elem_of_app in Hx as [Hx|Hx]; [by apply Hmax|].
        by apply list_elem_of_singleton in Hx as ->.
      * exists kv. rewrite <- app_assoc in Hin, Hall. by repeat split.
Qed.

Lemma idxmax_spec (s : list (string * fval)) :
  s <> [] ->
  exists kv, idxmax s = Some kv /\ kv ∈ s
             /\ (forall x, x ∈ s -> fltb kv.2 x.2 = false).
Proof.
  destruct s as [|b s]; [done|]. intros _. unfold idxmax. cbn [foldl].
  destruct (idxmax_from s [b] b) as (kv & Hf & Hin & Hall).
  - left.
  - intros x Hx. apply list_elem_of_singleton in Hx as ->. apply fltb_irrefl.
  - exists kv. by repeat split.
Qed.

Lemma length_remove_dups_same {A} `{EqDecision A} (l : list A) :
  (forall x y, x ∈ l -> y ∈ l -> x = y) -> (length (remove_dups l) <= 1)%nat.
Proof.
  intros Hsame. pose proof (NoDup_remove_dups l) as Hnd.
  assert (forall x y, x ∈ remove_dups l -> y ∈ remove_dups l -> x = y) as H.
  { intros x y Hx Hy. apply Hsame; by apply elem_of_remove_dups. }
  destruct (remove_dups l) as [|a [|b k]]; simpl; [lia|lia|].
  assert (a = b) as -> by (apply H; [left|right; left]).
  apply NoDup_cons in Hnd as [Hn _]. exfalso. apply Hn. left.
Qed.

Lemma nanmean_all_missing (xs : list fval) :
  Forall (fun x => x = NaN) xs -> nanmean xs = NaN.
Proof.
  intros Hall. unfold nanmean. cbn zeta.
  assert (List.filter notna xs = []) as ->; [|done].
  induction Hall as [|x xs -> _ IH]; [done|]. cbn. exact IH.
Qed.

Section more_metrics.
Variable Qc_sqrt : Qc -> Qc.

(** X7: the market concentration of the summary has one entry per category
    of the table, the category's registrations as a percentage of all
    registrations; when these do not sum to zero the entries sum to 100. *)
Theorem market_concentration_shares (data : list processed_row) :
  let M := market_concentration (calculate_growth_metrics Qc_sqrt data) in
  let cat := fun r : processed_row => category (p_row r) in
  let reg := fun r : processed_row => registrations (p_row r) in
  let total := sumZ (fmap reg data) in
  (forall c, c ∈ fmap cat data ->
     M !! c = Some (fmul (fdiv (fint (sumZ (fmap reg (matching cat c data))))
                               (fint total)) hundred))
  /\ (forall c, c ∉ fmap cat data -> M !! c = None)
  /\ (total <> 0 ->
      fsum (fmap (fun c => default NaN (M !! c)) (remove_dups (fmap cat data)))
      = Fin (Qc_of_Z 100)).
Proof.
  intros M cat reg total.
  set (keys := group_keys string_leb (fmap cat data)).
  set (S := fun c => sumZ (fmap reg (matching cat c data))).
  assert (sumZ (fmap snd (groupby_sum string_leb cat reg data)) = total) as Htotal.
  { unfold groupby_sum, groupby_agg. rewrite <- list_fmap_compose.
    rewrite (list_fmap_ext _ S keys) by done. unfold S.
    apply (sum_by_groups cat reg data keys); [apply NoDup_group_keys|].
    intros x Hx. apply elem_of_group_keys. by apply (list_elem_of_fmap_2 cat). }
  assert (M = list_to_map
                (fmap (fun c => (c, fmul (fdiv (fint (S c)) (fint total)) hundred)) keys))
    as HM.
  { unfold M, calculate_growth_metrics. cbn [market_concentration].
    fold cat reg. rewrite Htotal. f_equal.
    unfold groupby_sum, groupby_agg. by rewrite <- list_fmap_compose. }
  assert (forall c, c ∈ fmap cat data ->
            M !! c = Some (fmul (fdiv (fint (S c)) (fint total)) hundred)) as Hin.
  { intros c Hc. rewrite HM. apply elem_of_list_to_map_1.
    - rewrite <- list_fmap_compose. rewrite (list_fmap_ext _ id keys) by done.
      rewrite list_fmap_id. apply NoDup_group_keys.
    - apply (list_elem_of_fmap_2
               (fun c => (c, fmul (fdiv (fint (S c)) (fint total)) hundred))).
      by apply elem_of_group_keys. }
  split; [exact Hin|]. split.
  - intros c Hc. rewrite HM. apply not_elem_of_list_to_map_1.
    rewrite <- list_fmap_compose. rewrite (list_fmap_ext _ id keys) by done.
    rewrite list_fmap_id. intros Hk. by apply elem_of_group_keys in Hk.
  - intros Hne.
    rewrite (list_fmap_ext _
               (fun c => fmul (fdiv (fint (S c)) (fint total)) hundred)
               (remove_dups (fmap cat data))).
    + rewrite (fsum_shares_of S total) by done. unfold S.
      rewrite (sum_by_groups cat reg data).
      * by apply share_of_whole.
      * apply NoDup_remove_dups.
      * intros x Hx. apply elem_of_remove_dups. by apply (list_elem_of_fmap_2 cat).
    + intros i c Hc. apply list_elem_of_lookup_2 in Hc.
      rewrite elem_of_remove_dups in Hc. by rewrite (Hin c Hc).
Qed.

(** X8: on a table without rows the top growing category is "N/A" with
    rate 0; otherwise it is a category of the table, its rate is that
    category's entry of [category_yoy_growth], and no category has a
    greater entry. *)
Theorem top_growing_category_max (data : list processed_row) :
  let mt := calculate_growth_metrics Qc_sqrt data in
  (data = [] ->
   top_growing_category mt = "N/A"%string /\ top_growth_rate mt = Fin (Qc_of_Z 0))
  /\ (data <> [] ->
      top_growing_category mt ∈ fmap (fun r => category (p_row r)) data
      /\ category_yoy_growth mt !! top_growing_category mt = Some (top_growth_rate mt)
      /\ (forall c v, category_yoy_growth mt !! c = Some v ->
                      fltb (top_growth_rate mt) v = false)).
Proof.
  intros mt. split; [by intros ->|]. intros Hne.
  set (cg := mean_yoy_by (fun r => category (p_row r)) data).
  assert (NoDup (fmap fst cg)) as Hnd.
  { unfold cg, mean_yoy_by. rewrite map_fst_groupby_agg. apply NoDup_group_keys. }
  assert (cg <> []) as Hcg.
  { destruct data as [|r0 data]; [done|]. intros E.
    assert (category (p_row r0) ∈ fmap fst cg) as Hin.
    { unfold cg, mean_yoy_by. rewrite map_fst_groupby_agg.
      apply elem_of_group_keys. rewrite fmap_cons. left. }
    rewrite E in Hin. by apply elem_of_nil in Hin. }
  destruct (idxmax_spec cg Hcg) as (kv & Hidx & Hin & Hmax).
  assert (top_growing_category mt = kv.1) as Htop
    by (unfold mt, calculate_growth_metrics; cbn [top_growing_category];
        fold cg; by rewrite Hidx).
  assert (top_growth_rate mt = kv.2) as Hrate
    by (unfold mt, calculate_growth_metrics; cbn [top_growth_rate];
        fold cg; by rewrite Hidx).
  assert (category_yoy_growth mt = list_to_map cg) as HG by done.
  rewrite Htop, Hrate, HG. split; [|split].
  - apply (list_elem_of_fmap_2 fst) in Hin. unfold cg, mean_yoy_by in Hin.
    rewrite map_fst_groupby_agg in Hin. by apply elem_of_group_keys in Hin.
  - apply elem_of_list_to_map_1; [done|]. by destruct kv.
  - intros c v Hc. apply elem_of_list_to_map_2 in Hc. by apply (Hmax (c, v)).
Qed.

(** X9: on a table whose rows all lie in one month (or that has no row) the
    mean monthly growth and the growth consistency of the summary are 0. *)
Theorem single_month_growth_zero (data : list processed_row) :
  (forall r r', r ∈ data -> r' ∈ data -> month (p_row r) = month (p_row r')) ->
  monthly_growth (calculate_growth_metrics Qc_sqrt data) = Fin (Qc_of_Z 0)
  /\ growth_consistency (calculate_growth_metrics Qc_sqrt data) = Fin (Qc_of_Z 0).
Proof.
  intros Hsame. unfold calculate_growth_metrics.
  cbn [monthly_growth growth_consistency].
  set (totals := groupby_sum Z.leb (fun r => month (p_row r))
                   (fun r => registrations (p_row r)) data).
  assert (length totals <= 1)%nat as Hlen.
  { unfold totals, groupby_sum, groupby_agg, group_keys.
    rewrite length_fmap, length_stable_sort. apply length_remove_dups_same.
    intros x y Hx Hy.
    apply list_elem_of_fmap in Hx as (r & -> & Hr).
    apply list_elem_of_fmap in Hy as (r' & -> & Hr'). by apply Hsame. }
  destruct totals as [|a [|b l]]; [done| |simpl in Hlen; lia].
  split; [done|]. by cbn.
Qed.
End more_metrics.

Section more_volatility.
Variable Qc_sqrt : Qc -> Qc.

Lemma length_group_so_far_le raw_data i (x : timed_row) :
  (length (group_so_far (fmap p_row (processed_table Qc_sqrt raw_data)) i x)
   <= length (matching (fun r => (raw_state r, raw_category r))
                       (state_category x) raw_data))%nat.
Proof.
  unfold group_so_far. rewrite length_fmap, map_p_row_processed_table.
  set (T := sort_values (fmap add_time_columns raw_data)).
  transitivity (length (matching state_category (state_category x) T)).
  - rewrite <- (take_drop (S i) T) at 2. rewrite matching_app, length_app. lia.
  - apply Nat.eq_le_incl. unfold T, sort_values, matching.
    rewrite stable_sort_Permutation.
    rewrite <- (length_fmap add_time_columns
                  (filter (fun r => (raw_state r, raw_category r) = state_category x)
                          raw_data)).
    f_equal. symmetry.
    apply (map_matching_compose add_time_columns state_category).
Qed.

(** X10: when every (state, category) group of the raw table has fewer than
    10 rows, [volatility_30d] is missing on every row of the processed
    table and the average volatility of its summary is 0. *)
Theorem short_groups_no_volatility raw_data :
  (forall x, x ∈ raw_data ->
     (length (matching (fun r => (raw_state r, raw_category r))
                       (raw_state x, raw_category x) raw_data) < 10)%nat) ->
  Forall (fun r => volatility_30d r = NaN) (processed_table Qc_sqrt raw_data)
  /\ average_volatility
       (calculate_growth_metrics Qc_sqrt (processed_table Qc_sqrt raw_data))
     = Fin (Qc_of_Z 0).
Proof.
  intros Hshort.
  assert (Forall (fun r => volatility_30d r = NaN) (processed_table Qc_sqrt raw_data))
    as Hall.
  { apply Forall_forall. intros r Hr.
    pose proof Hr as Hr'. apply list_elem_of_lookup in Hr' as [i Hi].
    rewrite (lookup_processed_volatility Qc_sqrt raw_data i r Hi). cbn zeta.
    set (G := group_so_far (fmap p_row (processed_table Qc_sqrt raw_data)) i (p_row r)).
    assert (length (last_n 30 G) < 10)%nat as Hlt.
    { unfold last_n. rewrite length_drop.
      pose proof (length_group_so_far_le raw_data i (p_row r)) as Hle. fold G in Hle.
      assert (p_row r ∈ fmap add_time_columns raw_data) as Hin.
      { apply (list_elem_of_fmap_2 p_row) in Hr.
        rewrite map_p_row_processed_table in Hr. unfold sort_values in Hr.
        by apply elem_of_stable_sort in Hr. }
      apply list_elem_of_fmap in Hin as (x & Ex & Hx).
      pose proof (Hshort x Hx) as Hs. rewrite Ex in Hle.
      change (state_category (add_time_columns x))
        with (raw_state x, raw_category x) in Hle. lia. }
    by destruct (Nat.ltb_spec (length (last_n 30 G)) 10); [|lia]. }
  split; [exact Hall|].
  unfold calculate_growth_metrics. cbn [average_volatility].
  rewrite nanmean_all_missing; [done|]. by apply Forall_fmap.
Qed.
End more_volatility.

(** ** These properties on the example tables *)

Lemma qoq_mom_growth_lags_witness :
  exists r,
    processed_table Qc_sqrt_approx example_two_years !! 12%nat = Some r
    /\ qoq_growth (p_grown r) = Fin (Qc_of_Z 1400)
    /\ mom_growth (p_grown r) = Fin (Qc_of_Z 1100).
Proof.
  take_row (processed_table Qc_sqrt_approx example_two_years) 12%nat r E.
  exists r. split; [reflexivity|].
  assert (p_row r = add_time_columns (example_row 18628 1200)) as Hrow
    by (apply (p_row_at _ _ _ _ _ E); vm_compute; reflexivity).
  destruct (qoq_mom_growth_lags Qc_sqrt_approx example_two_years r
              [600; 601; 602; 603; 604; 605; 606; 607; 608; 609; 610; 611; 612]
              12%nat) as (_ & Hq & _ & Hm).
  - eapply list_elem_of_lookup_2, E.
  - rewrite Hrow. apply series_months_intro; [|exact example_two_years_months].
    repeat constructor; lia.
  - rewrite Hrow. reflexivity.
  - split.
    + rewrite (Hq 609) by (lia || reflexivity). rewrite Hrow.
      apply fval_eqb_eq. vm_compute. reflexivity.
    + rewrite (Hm 611) by (lia || reflexivity). rewrite Hrow.
      apply fval_eqb_eq. vm_compute. reflexivity.
Defined.


Lemma growth_flags_exclusive_witness :
  exists r,
    processed_table Qc_sqrt_approx example_two_years !! 12%nat = Some r
    /\ is_high_growth r && is_declining r = false.
Proof.
  take_row (processed_table Qc_sqrt_approx example_two_years) 12%nat r E.
  exists r. split; [reflexivity|].
  apply (growth_flags_exclusive Qc_sqrt_approx example_two_years r).
  eapply list_elem_of_lookup_2, E.
Defined.

Lemma rolling_averages_defined_witness :
  exists r a7 a30,
    processed_table Qc_sqrt_approx example_constant !! 3%nat = Some r
    /\ registrations_7d_avg (p_rolled r) = Fin a7
    /\ registrations_30d_avg (p_rolled r) = Fin a30
    /\ (0 <= a7)%Qc /\ (0 <= a30)%Qc.
Proof.
  take_row (processed_table Qc_sqrt_approx example_constant) 3%nat r E.
  destruct (rolling_averages_defined Qc_sqrt_approx example_constant r)
    as (a7 & a30 & H7 & H30 & Hpos).
  - eapply list_elem_of_lookup_2, E.
  - exists r, a7, a30. split; [reflexivity|]. split; [exact H7|].
    split; [exact H30|]. apply Hpos.
    apply (bool_decide_unpack _). vm_compute. reflexivity.
Defined.

Lemma above_average_iff_witness :
  exists r,
    processed_table Qc_sqrt_approx example_zero_month !! 1%nat = Some r
    /\ is_above_average r = true.
Proof.
  take_row (processed_table Qc_sqrt_approx example_zero_month) 1%nat r E.
  exists r. split; [reflexivity|].
  assert (p_row r = add_time_columns (example_row 18293 10)) as Hrow
    by (apply (p_row_at _ _ _ _ _ E); vm_compute; reflexivity).
  assert (r ∈ processed_table Qc_sqrt_approx example_zero_month) as Hr
    by (eapply list_elem_of_lookup_2, E).
  destruct (rolling_averages_defined Qc_sqrt_approx example_zero_month r Hr)
    as (a7 & a30 & _ & H30 & _).
  assert (a30 = Qc_of_Z 5) as ->.
  { assert (fval_eqb (registrations_30d_avg (p_rolled r)) (Fin (Qc_of_Z 5)) = true)
      as Hv.
    { assert (fmap (fun r => fval_eqb (registrations_30d_avg (p_rolled r))
                                      (Fin (Qc_of_Z 5)))
                   (processed_table Qc_sqrt_approx example_zero_month) !! 1%nat
              = Some true) as H by (vm_compute; reflexivity).
      rewrite list_lookup_fmap, E in H. by injection H. }
    apply fval_eqb_eq in Hv. rewrite H30 in Hv. by injection Hv. }
  apply (above_average_iff Qc_sqrt_approx example_zero_month r (Qc_of_Z 5) Hr H30).
  - by apply Qc_of_Z_le.
  - rewrite Hrow. by apply Qc_of_Z_lt.
Defined.

Lemma first_row_performance_witness :
  exists r,
    processed_table Qc_sqrt_approx example_constant !! 0%nat = Some r
    /\ performance_vs_30d r = Fin 0%Qc /\ is_above_average r = false.
Proof.
  take_row (processed_table Qc_sqrt_approx example_constant) 0%nat r E.
  exists r. split; [reflexivity|].
  assert (p_row r = add_time_columns (example_row 18262 7)) as Hrow
    by (apply (p_row_at _ _ _ _ _ E); vm_compute; reflexivity).
  destruct (first_row_performance Qc_sqrt_approx example_constant 0%nat r E)
    as (Hp & _ & Hab).
  - intros j r' Hj. lia.
  - split; [|exact Hab]. apply Hp. by rewrite Hrow.
Defined.

Lemma single_month_growth_zero_witness :
  monthly_growth
    (calculate_growth_metrics Qc_sqrt_approx
       (processed_table Qc_sqrt_approx example_constant)) = Fin (Qc_of_Z 0)
  /\ growth_consistency
       (calculate_growth_metrics Qc_sqrt_approx
          (processed_table Qc_sqrt_approx example_constant)) = Fin (Qc_of_Z 0).
Proof.
  apply single_month_growth_zero.
  assert (forall r, r ∈ processed_table Qc_sqrt_approx example_constant ->
            month (p_row r) = 600) as Hm.
  { intros r Hr. apply (list_elem_of_fmap_2 (fun r => month (p_row r))) in Hr.
    assert (fmap (fun r => month (p_row r))
                 (processed_table Qc_sqrt_approx example_constant)
            = replicate 12 600) as Hall by (vm_compute; reflexivity).
    rewrite Hall in Hr. by apply elem_of_replicate in Hr as [-> _]. }
  intros r r' Hr Hr'. by rewrite (Hm r Hr), (Hm r' Hr').
Defined.

Lemma short_groups_no_volatility_witness :
  average_volatility
    (calculate_growth_metrics Qc_sqrt_approx
       (processed_table Qc_sqrt_approx example_zero_month)) = Fin (Qc_of_Z 0).
Proof.
  apply (short_groups_no_volatility Qc_sqrt_approx example_zero_month).
  intros x Hx. apply Nat.ltb_lt.
  repeat (apply elem_of_cons in Hx as [->|Hx]; [vm_compute; reflexivity|]).
  by apply elem_of_nil in Hx.
Defined.

(** ** More on the generator *)

Lemma length_triples dates states cats :
  length (triples dates states cats)
  = (length dates * length states * length cats)%nat.
Proof.
  unfold triples. induction dates as [|d ds IH]; [done|].
  cbn [mbind list_bind]. rewrite length_app. cbn [mbind list_bind] in IH.
  rewrite IH. cbn [length].
  assert (length (states ≫= (fun s => cats ≫= (fun c => [(d, s, c)])))
          = (length states * length cats)%nat) as ->; [|lia].
  clear. induction states as [|s ss IH]; [done|].
  cbn [mbind list_bind]. rewrite length_app. cbn [mbind list_bind] in IH.
  rewrite IH. cbn [length].
  assert (length (cats ≫= (fun c => [(d, s, c)])) = length cats) as ->; [|lia].
  clear. induction cats as [|c cs IH]; [done|].
  cbn [mbind list_bind app length] in *. by rewrite IH.
Qed.

Lemma length_date_range a b : length (date_range a b) = Z.to_nat (b - a + 1).
Proof. unfold date_range. by rewrite length_fmap, length_seq. Qed.

Lemma generated_state start_date end_date states cats st :
  (_generate_realistic_data start_date end_date states cats st).2
  = advance (length (_generate_realistic_data start_date end_date states cats st).1) st.
Proof.
  unfold _generate_realistic_data. rewrite generate_triples, for_each_rows.
  cbn [fst snd]. by rewrite length_imap.
Qed.

(** X11: the generator writes one row per day of the inclusive range, state
    and category, so none when the end date is before the start date, and it
    takes one value from each random source per row. *)
Theorem generator_row_count start_date end_date states cats st :
  length (_generate_realistic_data start_date end_date states cats st).1
  = (Z.to_nat (end_date - start_date + 1)
     * length (or_default states default_states)
     * length (or_default cats default_categories))%nat
  /\ (_generate_realistic_data start_date end_date states cats st).2
     = advance (Z.to_nat (end_date - start_date + 1)
                * length (or_default states default_states)
                * length (or_default cats default_categories)) st.
Proof.
  assert (length (_generate_realistic_data start_date end_date states cats st).1
          = (Z.to_nat (end_date - start_date + 1)
             * length (or_default states default_states)
             * length (or_default cats default_categories))%nat) as E.
  { by rewrite generated_rows, length_imap, length_triples, length_date_range. }
  split; [exact E|]. by rewrite generated_state, E.
Qed.

Lemma date_range_app a b c :
  a - 1 <= b -> b <= c ->
  date_range a c = date_range a b ++ date_range (b + 1) c.
Proof.
  intros Hab Hbc. unfold date_range.
  replace (Z.to_nat (c - a + 1))
    with (Z.to_nat (b - a + 1) + Z.to_nat (c - (b + 1) + 1))%nat by lia.
  rewrite seq_app, fmap_app. f_equal.
  replace (seq (0 + Z.to_nat (b - a + 1)) (Z.to_nat (c - (b + 1) + 1)))
    with (fmap (fun x => Z.to_nat (b - a + 1) + x)%nat
               (seq 0 (Z.to_nat (c - (b + 1) + 1))))
    by (rewrite fmap_add_seq; f_equal; lia).
  rewrite <- list_fmap_compose. apply list_fmap_ext. intros _ i _.
  cbn [compose]. lia.
Qed.

(** X12: generating a range of days in two runs, the second over the days
    after the first and from the random state the first leaves, gives the rows
    and the final random state of one run over the whole range. *)
Theorem generator_adjacent_ranges a b c states cats st :
  a - 1 <= b -> b <= c ->
  _generate_realistic_data a c states cats st
  = ((_generate_realistic_data a b states cats st).1
     ++ (_generate_realistic_data (b + 1) c states cats
           (_generate_realistic_data a b states cats st).2).1,
     (_generate_realistic_data (b + 1) c states cats
        (_generate_realistic_data a b states cats st).2).2).
Proof.
  intros Hab Hbc. unfold _generate_realistic_data.
  rewrite (date_range_app a b c Hab Hbc), for_each_app.
  destruct (for_each (date_range a b) _ st) as [r1 st1]. cbn [fst snd].
  by destruct (for_each (date_range (b + 1) c) _ st1) as [r2 st2].
Qed.

Lemma generator_adjacent_ranges_witness :
  _generate_realistic_data 18262 18264 None None (const_rand (dec 1 1))
  = ((_generate_realistic_data 18262 18262 None None (const_rand (dec 1 1))).1
     ++ (_generate_realistic_data 18263 18264 None None
           (_generate_realistic_data 18262 18262 None None (const_rand (dec 1 1))).2).1,
     (_generate_realistic_data 18263 18264 None None
        (_generate_realistic_data 18262 18262 None None (const_rand (dec 1 1))).2).2).
Proof. apply (generator_adjacent_ranges 18262 18262 18264); lia. Defined.

(** ** The factors of a generated value *)

Lemma default_lookup_list_to_map `{Countable K} {V} (P : V -> Prop)
    (l : list (K * V)) (d : V) (k : K) :
  P d -> Forall (fun kv => P kv.2) l ->
  P (default d ((list_to_map l : gmap K V) !! k)).
Proof.
  intros Hd Hl. destruct (_ !! k) as [v|] eqn:E; cbn [default]; [|done].
  apply elem_of_list_to_map_2 in E. rewrite Forall_forall in Hl.
  apply (Hl _ E).
Qed.

Lemma base_registrations_pos category : 0 < _get_base_registrations category.
Proof.
  unfold _get_base_registrations, base_numbers.
  apply (default_lookup_list_to_map (fun v => 0 < v)); [lia|].
  repeat constructor.
Qed.

Lemma seasonal_factor_pos date : (0 < _get_seasonal_factor date)%Qc.
Proof.
  unfold _get_seasonal_factor, seasonal_factors.
  apply (default_lookup_list_to_map (fun v => (0 < v)%Qc)); [done|].
  repeat constructor.
Qed.

Lemma state_factor_pos state : (0 < _get_state_factor state)%Qc.
Proof.
  unfold _get_state_factor, state_factors.
  apply (default_lookup_list_to_map (fun v => (0 < v)%Qc)); [done|].
  repeat constructor.
Qed.

Lemma Qcpower_pos_strict (q : Qc) (n : nat) : (0 < q)%Qc -> (0 < q ^ n)%Qc.
Proof.
  intros Hq. apply Qc_sgn_pos. apply Qc_sgn_pos in Hq.
  induction n as [|n IH]; [done|].
  cbn [Qcpower]. rewrite Qc_sgn_mul. lia.
Qed.

Lemma Qc_powZ_pos (q : Qc) (n : Z) : (0 < q)%Qc -> (0 < Qc_powZ q n)%Qc.
Proof.
  intros Hq. unfold Qc_powZ. destruct (0 <=? n).
  - by apply Qcpower_pos_strict.
  - apply Qc_sgn_pos. rewrite Qc_sgn_inv. by apply Qc_sgn_pos, Qcpower_pos_strict.
Qed.

Lemma growth_factor_pos date category : (0 < _get_growth_factor date category)%Qc.
Proof.
  unfold _get_growth_factor. apply Qc_powZ_pos. unfold growth_rates.
  apply (default_lookup_list_to_map (fun v => (0 < 1 + v)%Qc)); [done|].
  repeat constructor.
Qed.


Lemma registration_value_mono date state category n1 n2 :
  (n1 <= n2)%Qc ->
  (registration_value date state category n1
   <= registration_value date state category n2)%Qc.
Proof.
  intros Hn. unfold registration_value.
  apply Qcmult_le_compat_r; [|apply Qclt_le_weak, state_factor_pos].
  rewrite !(Qcmult_comm _ n1), !(Qcmult_comm _ n2).
  apply Qcmult_le_compat_r; [done|]. apply Qclt_le_weak.
  apply Qc_sgn_pos. rewrite !Qc_sgn_mul, Qc_sgn_of_Z.
  pose proof (base_registrations_pos category) as Hb.
  pose proof (proj2 (Qc_sgn_pos _) (seasonal_factor_pos date)) as Hs.
  pose proof (proj2 (Qc_sgn_pos _) (growth_factor_pos date category)) as Hg.
  nia.
Qed.

Lemma Qc_trunc_mono (p q : Qc) : (p <= q)%Qc -> Qc_trunc p <= Qc_trunc q.
Proof.
  unfold Qcle, Qle, Qc_trunc. destruct p as [[n d] Hp], q as [[m e] Hq].
  cbn [this Qnum Qden]. intros Hle.
  rewrite <- (Z.quot_mul_cancel_r n (Zpos d) (Zpos e)) by lia.
  rewrite <- (Z.quot_mul_cancel_r m (Zpos e) (Zpos d)) by lia.
  rewrite (Z.mul_comm (Zpos e) (Zpos d)). apply Z.quot_le_mono; lia.
Qed.



Lemma generated_row_at start_date end_date states cats st i r :
  (_generate_realistic_data start_date end_date states cats st).1 !! i = Some r ->
  exists k,
    triples (date_range start_date end_date)
            (or_default states default_states)
            (or_default cats default_categories) !! i = Some k
    /\ r = row_at st i k.
Proof.
  rewrite generated_rows, list_lookup_imap.
  destruct (_ !! i) as [k|]; cbn; [|done]. intros [= <-]. by exists k.
Qed.

(** X13: a larger noise value never gives fewer registrations: for two runs
    of the generator on the same arguments, the row at a position where the
    first run drew the smaller noise carries at most the registrations of the
    second run's row at that position. *)
Theorem registrations_monotone_in_noise start_date end_date states cats
    st1 st2 i r1 r2 :
  (_generate_realistic_data start_date end_date states cats st1).1 !! i = Some r1 ->
  (_generate_realistic_data start_date end_date states cats st2).1 !! i = Some r2 ->
  (np_random st1 i <= np_random st2 i)%Qc ->
  row_triple r1 = row_triple r2
  /\ raw_registrations r1 <= raw_registrations r2.
Proof.
  intros H1 H2 Hn.
  apply generated_row_at in H1 as (k1 & Hk1 & ->).
  apply generated_row_at in H2 as (k2 & Hk2 & ->).
  assert (k2 = k1) as -> by congruence.
  rewrite !row_triple_row_at. split; [done|].
  unfold row_at, make_row. cbn [raw_registrations].
  apply Z.max_le_compat_l, Qc_trunc_mono. by apply registration_value_mono.
Qed.

Lemma registrations_monotone_in_noise_witness :
  raw_registrations (make_row 18262 "Karnataka" "2W" (dec 9 10) "Hero MotoCorp")
  <= raw_registrations (make_row 18262 "Karnataka" "2W" (dec 11 10) "Hero MotoCorp").
Proof.
  apply (registrations_monotone_in_noise 18262 18262 (Some ["Karnataka"%string])
           (Some ["2W"%string]) (const_rand (dec 9 10)) (const_rand (dec 11 10))
           0%nat).
  - vm_compute. reflexivity.
  - vm_compute. reflexivity.
  - vm_compute. discriminate.
Defined.



(** X15: the manufacturer of a generated row is one of the manufacturers
    listed for the row's category, and [Others] for a category that has no
    list. *)
Theorem generated_manufacturer_of_category start_date end_date states cats st i r :
  (_generate_realistic_data start_date end_date states cats st).1 !! i = Some r ->
  raw_manufacturer r ∈ default ["Others"%string] (manufacturers !! raw_category r)
  /\ (manufacturers !! raw_category r = None -> raw_manufacturer r = "Others"%string).
Proof.
  intros Hr. apply generated_row_at in Hr as ([[d s] c] & _ & ->).
  unfold row_at, make_row. cbn [raw_manufacturer raw_category fst snd].
  set (ms := default ["Others"%string] (manufacturers !! c)).
  assert (ms <> []) as Hne.
  { unfold ms, manufacturers.
    apply (default_lookup_list_to_map (fun v : list string => v <> [])); [done|].
    repeat constructor; done. }
  split.
  - apply nth_elem_of, Nat.mod_upper_bound.
    destruct ms; [done|]. cbn [length]. lia.
  - unfold ms. intros ->. cbn [default length]. by rewrite Nat.mod_1_r.
Qed.

Lemma generated_manufacturer_of_category_witness :
  "Hero MotoCorp"%string
  ∈ default ["Others"%string] (manufacturers !! "2W"%string).
Proof.
  apply (generated_manufacturer_of_category 18262 18262 (Some ["Karnataka"%string])
           (Some ["2W"%string]) (const_rand (dec 1 1)) 0%nat
           (make_row 18262 "Karnataka" "2W" (dec 1 1) "Hero MotoCorp")).
  vm_compute. reflexivity.
Defined.

(** ** Calendar columns *)

Lemma date_month_bounds d : 1 <= date_month d <= 12.
Proof.
  unfold date_month, civil_from_days. cbn [fst snd].
  set (doe := (d + 719468) mod 146097).
  assert (0 <= doe < 146097) as Hdoe by (apply Z.mod_pos_bound; lia).
  clearbody doe.
  set (yoe := (doe - doe / 1460 + doe / 36524 - doe / 146096) / 365).
  set (doy := doe - (365 * yoe + yoe / 4 - yoe / 100)).
  assert (0 <= doy <= 365) as Hdoy.
  { subst doy yoe. Z.div_mod_to_equations; lia. }
  clearbody doy.
  assert (0 <= (5 * doy + 2) / 153 <= 11) as Hmp.
  { Z.div_mod_to_equations; lia. }
  destruct (_ <? 10) eqn:E; [apply Z.ltb_lt in E | apply Z.ltb_ge in E]; lia.
Qed.

(** X16: every date has its month in the table of seasonal factors, so the
    fallback factor 1.0 is never used, and the factor lies between 0.75 and
    1.4. *)
Theorem seasonal_factor_in_table date :
  seasonal_factors !! date_month date = Some (_get_seasonal_factor date)
  /\ (dec 75 100 <= _get_seasonal_factor date)%Qc
  /\ (_get_seasonal_factor date <= dec 14 10)%Qc.
Proof.
  unfold _get_seasonal_factor. pose proof (date_month_bounds date) as Hm.
  revert Hm. generalize (date_month date). intros m Hm.
  assert (m = 1 \/ m = 2 \/ m = 3 \/ m = 4 \/ m = 5 \/ m = 6 \/ m = 7 \/ m = 8
          \/ m = 9 \/ m = 10 \/ m = 11 \/ m = 12) as H by lia.
  clear Hm.
  repeat (destruct H as [-> | H];
          [split; [reflexivity|split; vm_compute; discriminate]|]).
  subst m. split; [reflexivity|split; vm_compute; discriminate].
Qed.

(** X17: on a generated row the month is between 1 and 12 and the quarter
    between 1 and 4, and the month and quarter periods that processing puts
    in place of these columns are the same month and quarter of the row's
    year. *)
Theorem generated_calendar_columns start_date end_date states cats st i r :
  (_generate_realistic_data start_date end_date states cats st).1 !! i = Some r ->
  raw_month r = (raw_year r, date_month (raw_date r))
  /\ 1 <= (raw_month r).2 <= 12
  /\ 1 <= raw_quarter r <= 4
  /\ raw_quarter r = ((raw_month r).2 + 2) / 3
  /\ month (add_time_columns r) = (raw_year r - 1970) * 12 + ((raw_month r).2 - 1)
  /\ quarter (add_time_columns r) = (raw_year r - 1970) * 4 + (raw_quarter r - 1).
Proof.
  intros Hr. apply generated_row_lookup in Hr as [m Hr].
  pose proof (date_month_bounds (raw_date r)) as Hm.
  rewrite Hr. unfold make_row, add_time_columns, to_period_M, to_period_Q.
  cbn [raw_month raw_year raw_quarter raw_date month quarter fst snd].
  repeat split; first [lia | Z.div_mod_to_equations; lia].
Qed.

Lemma generated_calendar_columns_witness :
  raw_month (make_row 18262 "Karnataka" "2W" (dec 1 1) "Hero MotoCorp") = (2020, 1)
  /\ raw_quarter (make_row 18262 "Karnataka" "2W" (dec 1 1) "Hero MotoCorp") = 1.
Proof.
  destruct (generated_calendar_columns 18262 18262 (Some ["Karnataka"%string])
              (Some ["2W"%string]) (const_rand (dec 1 1)) 0%nat
              (make_row 18262 "Karnataka" "2W" (dec 1 1) "Hero MotoCorp"))
    as (Hm & _ & _ & Hq & _).
  - vm_compute. reflexivity.
  - split; [rewrite Hm | rewrite Hq]; vm_compute; reflexivity.
Defined.

(** ** Order of the processed rows *)

Lemma stable_sort_sorted {A} (leb : A -> A -> bool) (l : list A) :
  StronglySorted (fun a b => leb a b = true) l -> stable_sort leb l = l.
Proof.
  induction 1 as [|x l Hl IH Hx]; [done|].
  unfold stable_sort in *. cbn [foldr]. rewrite IH.
  destruct l as [|y l']; [done|]. cbn [insert_sorted].
  apply Forall_cons in Hx as [Hxy _]. by rewrite Hxy.
Qed.

Section more_order.
Variable Qc_sqrt : Qc -> Qc.

(** X18: the rows of the processed table are the rows of the raw table with
    their calendar columns, each as often as there, in ascending order of
    (state, category, date): a row never comes after a row with a smaller
    key. *)
Theorem processed_rows_sorted raw_data :
  let T := fmap p_row (processed_table Qc_sqrt raw_data) in
  T ≡ₚ fmap add_time_columns raw_data
  /\ (forall i j a b, (i < j)%nat -> T !! i = Some a -> T !! j = Some b ->
        key_leb (series_key a) (series_key b) = true).
Proof.
  intros T. unfold T. rewrite map_p_row_processed_table. split.
  - apply stable_sort_Permutation.
  - intros i j a b Hij Ha Hb.
    pose proof (sort_values_sorted (fmap add_time_columns raw_data)) as Hs.
    revert Hs Ha Hb. generalize (sort_values (fmap add_time_columns raw_data)).
    intros l Hs. revert i j Hij. induction Hs as [|x l Hl IH Hx]; intros i j Hij Ha Hb.
    + done.
    + destruct j as [|j]; [lia|]. cbn in Hb. destruct i as [|i].
      * cbn in Ha. injection Ha as <-. rewrite Forall_forall in Hx.
        apply Hx. by eapply list_elem_of_lookup_2.
      * cbn in Ha. apply (IH i j); (lia || done).
Qed.

(** X19: a raw table that is already in ascending order of (state, category,
    date) keeps every row at its position. *)
Theorem sorted_input_keeps_positions raw_data :
  StronglySorted
    (fun a b => key_leb (raw_state a, raw_category a, raw_date a)
                        (raw_state b, raw_category b, raw_date b) = true) raw_data ->
  fmap p_row (processed_table Qc_sqrt raw_data) = fmap add_time_columns raw_data.
Proof.
  intros Hs. rewrite map_p_row_processed_table. apply stable_sort_sorted.
  induction Hs as [|x l Hl IH Hx]; [constructor|].
  rewrite fmap_cons. constructor; [done|].
  rewrite Forall_fmap. eapply Forall_impl; [exact Hx|]. by intros y Hy.
Qed.

End more_order.

Lemma processed_rows_sorted_witness :
  fmap (fun r => date (p_row r)) (processed_table Qc_sqrt_approx example_reversed)
  = [18262; 18263]
  /\ key_leb ("Karnataka", "2W", 18262)%string ("Karnataka", "2W", 18263)%string = true.
Proof.
  split; [vm_compute; reflexivity|].
  destruct (processed_rows_sorted Qc_sqrt_approx example_reversed) as [_ H].
  apply (H 0%nat 1%nat (add_time_columns (example_row 18262 7))
           (add_time_columns (example_row 18263 5))).
  - lia.
  - vm_compute. reflexivity.
  - vm_compute. reflexivity.
Defined.

Lemma sorted_input_keeps_positions_witness :
  fmap p_row (processed_table Qc_sqrt_approx example_two_years)
  = fmap add_time_columns example_two_years.
Proof.
  apply sorted_input_keeps_positions.
  unfold example_two_years. repeat (constructor; [|repeat constructor]).
  constructor.
Defined.

(** ** The summary statistics *)

Lemma foldl_min_spec (x : Z) (xs : list Z) :
  foldl Z.min x xs ∈ x :: xs /\ Forall (fun z => foldl Z.min x xs <= z) (x :: xs).
Proof.
  revert x. induction xs as [|z xs IH]; intros x; cbn [foldl].
  - split; [left|]. by repeat constructor.
  - destruct (IH (Z.min x z)) as [Hin Hall]. split.
    + apply elem_of_cons in Hin as [E|Hin]; [|by do 2 right].
      rewrite E. destruct (Z.min_spec x z) as [[_ ->]|[_ ->]]; [|right]; left.
    + apply Forall_cons_1 in Hall as [Hm Hall].
      repeat constructor; [lia|lia|done].
Qed.

Lemma column_min_spec (xs : list Z) :
  xs <> [] ->
  exists lo, column_min xs = Some lo /\ lo ∈ xs /\ forall x, x ∈ xs -> lo <= x.
Proof.
  destruct xs as [|x xs]; [done|]. intros _. eexists. split; [done|].
  destruct (foldl_min_spec x xs) as [Hin Hall]. split; [done|].
  by apply Forall_forall.
Qed.

Lemma column_max_spec (xs : list Z) :
  xs <> [] ->
  exists hi, column_max xs = Some hi /\ hi ∈ xs /\ forall x, x ∈ xs -> x <= hi.
Proof.
  destruct xs as [|x xs]; [done|]. intros _. eexists. split; [done|].
  destruct (foldl_max_spec x xs) as [Hin Hall]. split; [done|].
  by apply Forall_forall.
Qed.

Lemma sumZ_bounds (lo hi : Z) (xs : list Z) :
  (forall x, x ∈ xs -> lo <= x <= hi) ->
  lo * Z.of_nat (length xs) <= sumZ xs <= hi * Z.of_nat (length xs).
Proof.
  unfold sumZ. induction xs as [|x xs IH]; intros Hb; cbn [foldr length]; [lia|].
  assert (lo <= x <= hi) by (apply Hb; left).
  assert (forall y, y ∈ xs -> lo <= y <= hi) as Hb' by (intros y Hy; apply Hb; by right).
  specialize (IH Hb'). lia.
Qed.

Lemma Qc_div_bounds (s n lo hi : Z) :
  0 < n -> lo * n <= s <= hi * n ->
  (Qc_of_Z lo <= Qc_of_Z s / Qc_of_Z n)%Qc /\ (Qc_of_Z s / Qc_of_Z n <= Qc_of_Z hi)%Qc.
Proof.
  intros Hn [Hlo Hhi].
  assert (Qc_of_Z n <> 0%Qc) as Hn0 by (apply Qc_of_Z_nonzero; lia).
  assert (0 <= / Qc_of_Z n)%Qc as Hinv.
  { apply Qclt_le_weak, Qc_sgn_pos. rewrite Qc_sgn_inv, Qc_sgn_of_Z. lia. }
  assert (forall z, Qc_of_Z z = (Qc_of_Z (z * n) / Qc_of_Z n)%Qc) as E.
  { intros z. rewrite Qc_of_Z_mul. by field. }
  rewrite (E lo), (E hi). unfold Qcdiv.
  split; (apply Qcmult_le_compat_r; [by apply Qc_of_Z_le|done]).
Qed.

Lemma median_Z_bounds (xs : list Z) (lo hi : Z) :
  xs <> [] -> (forall x, x ∈ xs -> lo <= x <= hi) ->
  exists m, median_Z xs = Fin m /\ (Qc_of_Z lo <= m)%Qc /\ (m <= Qc_of_Z hi)%Qc.
Proof.
  intros Hne Hb. unfold median_Z.
  set (s := stable_sort Z.leb xs).
  assert (length s = length xs) as Hlen by apply length_stable_sort.
  assert (forall i, (i < length xs)%nat -> lo <= nth i s 0 <= hi) as Hnth.
  { intros i Hi. apply Hb. apply (elem_of_stable_sort Z.leb).
    apply nth_elem_of. fold s. by rewrite Hlen. }
  destruct (length xs) as [|n] eqn:En; [by destruct xs|].
  assert (S n / 2 < S n)%nat as H2 by (apply Nat.div_lt; lia).
  destruct (Nat.even (S n)).
  - pose proof (Hnth (S n / 2 - 1)%nat ltac:(lia)) as Ha.
    pose proof (Hnth (S n / 2)%nat H2) as Hc.
    unfold fint. cbn [fadd]. rewrite <- Qc_of_Z_add. cbn [fdiv].
    rewrite Qc_sgn_of_Z. change (Z.sgn 2 =? 0) with false. cbn iota.
    eexists. split; [reflexivity|]. apply Qc_div_bounds; lia.
  - pose proof (Hnth (S n / 2)%nat H2) as Hc.
    eexists. split; [reflexivity|]. split; apply Qc_of_Z_le; lia.
Qed.

Section more_summary.
Variable Qc_sqrt : Qc -> Qc.

(** X20: the summary of a table without rows is an error; for any other table
    it exists, counts the rows, and its date range runs from the earliest to
    the latest date of the table, both written as year-month-day. *)
Theorem summary_date_range (data : list processed_row) :
  let dates := fmap (fun r => date (p_row r)) data in
  (get_summary_statistics Qc_sqrt data = None <-> data = [])
  /\ (forall s, get_summary_statistics Qc_sqrt data = Some s ->
        total_records s = length data
        /\ exists d0 d1,
             d0 ∈ dates /\ d1 ∈ dates
             /\ (forall d, d ∈ dates -> d0 <= d <= d1)
             /\ date_range_start s = strftime_ymd d0
             /\ date_range_end s = strftime_ymd d1).
Proof.
  intros dates. destruct data as [|r data].
  - split; [done|]. intros s. by cbn.
  - assert (dates <> []) as Hd by done.
    assert (fmap (fun r => registrations (p_row r)) (r :: data) <> []) as Hr by done.
    destruct (column_min_spec dates Hd) as (d0 & E0 & Hin0 & Hlo).
    destruct (column_max_spec dates Hd) as (d1 & E1 & Hin1 & Hhi).
    destruct (column_min_spec _ Hr) as (lo & El & _).
    destruct (column_max_spec _ Hr) as (hi & Eh & _).
    unfold get_summary_statistics. fold dates. rewrite E0, E1, El, Eh.
    cbn [mbind option_bind]. split; [done|]. intros s [= <-].
    cbn [total_records date_range_start date_range_end]. split; [done|].
    exists d0, d1. repeat split; try done; [by apply Hlo|by apply Hhi].
Qed.

(** X21: in a summary, the daily average times the number of records is the
    total of the registrations; the average is also the mean of the
    distribution and lies between its minimum and its maximum, which are the
    least and the greatest registrations value of the table. *)
Theorem summary_average_between (data : list processed_row) (s : summary) :
  let regs := fmap (fun r => registrations (p_row r)) data in
  let D := registrations_distribution s in
  get_summary_statistics Qc_sqrt data = Some s ->
  dist_min D ∈ regs /\ dist_max D ∈ regs
  /\ (forall x, x ∈ regs -> dist_min D <= x <= dist_max D)
  /\ exists a,
       daily_average s = Fin a /\ dist_mean D = Fin a
       /\ (a * Qc_of_Z (Z.of_nat (total_records s)) = Qc_of_Z (total_registrations s))%Qc
       /\ (Qc_of_Z (dist_min D) <= a)%Qc /\ (a <= Qc_of_Z (dist_max D))%Qc.
Proof.
  intros regs D Hs. subst D. destruct data as [|r data]; [done|].
  assert (regs <> []) as Hr by done.
  destruct (column_min_spec regs Hr) as (lo & El & Hinl & Hlo).
  destruct (column_max_spec regs Hr) as (hi & Eh & Hinh & Hhi).
  unfold get_summary_statistics in Hs. fold regs in Hs. rewrite El, Eh in Hs.
  cbn [mbind option_bind] in Hs.
  injection Hs as <-.
  cbn [registrations_distribution dist_min dist_max dist_mean daily_average
       total_records total_registrations].
  split; [done|]. split; [done|].
  split; [intros x Hx; split; [by apply Hlo|by apply Hhi]|].
  rewrite (mean_Z_Fin regs Hr).
  assert (length regs = length (r :: data)) as Hlen by apply length_fmap.
  assert (0 < Z.of_nat (length regs)) as Hpos by (rewrite Hlen; cbn [length]; lia).
  eexists. split; [reflexivity|]. split; [reflexivity|]. split.
  - replace (Z.of_nat (S (length data))) with (Z.of_nat (length regs))
      by (by rewrite Hlen).
    replace (registrations (p_row r) + sumZ _) with (sumZ regs) by done.
    field. apply Qc_of_Z_nonzero. lia.
  - apply Qc_div_bounds; [done|]. apply sumZ_bounds.
    intros x Hx. split; [by apply Hlo|by apply Hhi].
Qed.

(** X22: the median of a summary is defined and lies between the minimum and
    the maximum of the registrations. *)
Theorem summary_median_between (data : list processed_row) (s : summary) :
  get_summary_statistics Qc_sqrt data = Some s ->
  exists m,
    dist_median (registrations_distribution s) = Fin m
    /\ (Qc_of_Z (dist_min (registrations_distribution s)) <= m)%Qc
    /\ (m <= Qc_of_Z (dist_max (registrations_distribution s)))%Qc.
Proof.
  intros Hs. destruct data as [|r data]; [done|].
  set (regs := fmap (fun r => registrations (p_row r)) (r :: data)).
  assert (regs <> []) as Hr by done.
  destruct (column_min_spec regs Hr) as (lo & El & Hinl & Hlo).
  destruct (column_max_spec regs Hr) as (hi & Eh & Hinh & Hhi).
  unfold get_summary_statistics in Hs. fold regs in Hs. rewrite El, Eh in Hs.
  cbn [mbind option_bind] in Hs.
  injection Hs as <-.
  cbn [registrations_distribution dist_min dist_max dist_median].
  apply median_Z_bounds; [done|].
  intros x Hx. split; [by apply Hlo|by apply Hhi].
Qed.

(** X23: the standard deviation of a summary is missing for a table of one
    row. *)
Theorem summary_std_single_row (r : processed_row) (s : summary) :
  get_summary_statistics Qc_sqrt [r] = Some s ->
  dist_std (registrations_distribution s) = NaN
  /\ dist_median (registrations_distribution s) = fint (registrations (p_row r))
  /\ dist_mean (registrations_distribution s) = fint (registrations (p_row r)).
Proof.
  intros [= <-]. cbn [registrations_distribution dist_std dist_median dist_mean].
  split; [|split].
  - cbn [fmap list_fmap]. unfold std_Z, fstd. cbn [fmap list_fmap length].
    unfold fsum. cbn [foldl]. change (Z.of_nat 1 - 1) with 0.
    change (Z.of_nat 1) with 1. unfold fint, fzero, fsub.
    cbn [fadd fopp fdiv fmul]. rewrite !Qc_sgn_of_Z.
    change (Z.sgn 1 =? 0) with false. cbn iota. cbn [fadd fopp fdiv fmul].
    rewrite Qc_sgn_of_Z. change (Z.sgn 0 =? 0) with true. cbn iota.
    set (v := Qc_of_Z (registrations (p_row r))).
    assert (Qc_of_Z 0 + (v + - ((Qc_of_Z 0 + v) / Qc_of_Z 1))
                        * (v + - ((Qc_of_Z 0 + v) / Qc_of_Z 1)) = 0)%Qc as ->; [|done].
    rewrite Qc_of_Z_0, Qc_of_Z_1. field. discriminate.
  - reflexivity.
  - apply mean_Z_singleton.
Qed.
End more_summary.

Lemma summary_average_between_witness :
  exists s a,
    get_summary_statistics Qc_sqrt_approx
      (processed_table Qc_sqrt_approx example_zero_month) = Some s
    /\ daily_average s = Fin a
    /\ (a * Qc_of_Z (Z.of_nat (total_records s)) = Qc_of_Z (total_registrations s))%Qc
    /\ (Qc_of_Z (dist_min (registrations_distribution s)) <= a)%Qc
    /\ (a <= Qc_of_Z (dist_max (registrations_distribution s)))%Qc.
Proof.
  destruct (get_summary_statistics Qc_sqrt_approx
              (processed_table Qc_sqrt_approx example_zero_month)) as [s|] eqn:E;
    [|vm_compute in E; discriminate E].
  destruct (summary_average_between Qc_sqrt_approx _ s E)
    as (_ & _ & _ & a & Ha & _ & Ht & Hlo & Hhi).
  clear E. exists s, a. split; [reflexivity|]. split; [exact Ha|].
  split; [exact Ht|]. split; [exact Hlo|exact Hhi].
Defined.

Lemma summary_median_between_witness :
  exists s m,
    get_summary_statistics Qc_sqrt_approx
      (processed_table Qc_sqrt_approx example_zero_month) = Some s
    /\ dist_median (registrations_distribution s) = Fin m
    /\ (Qc_of_Z (dist_min (registrations_distribution s)) <= m)%Qc
    /\ (m <= Qc_of_Z (dist_max (registrations_distribution s)))%Qc.
Proof.
  destruct (get_summary_statistics Qc_sqrt_approx
              (processed_table Qc_sqrt_approx example_zero_month)) as [s|] eqn:E;
    [|vm_compute in E; discriminate E].
  destruct (summary_median_between Qc_sqrt_approx _ s E) as (m & Hm).
  clear E. exists s, m. split; [reflexivity|exact Hm].
Defined.

Lemma summary_std_single_row_witness :
  exists r s,
    processed_table Qc_sqrt_approx [example_row 18262 7] = [r]
    /\ get_summary_statistics Qc_sqrt_approx [r] = Some s
    /\ dist_std (registrations_distribution s) = NaN.
Proof.
  destruct (processed_table Qc_sqrt_approx [example_row 18262 7]) as [|r [|r' l]] eqn:E;
    [vm_compute in E; discriminate E| |vm_compute in E; discriminate E].
  clear E. exists r.
  destruct (get_summary_statistics Qc_sqrt_approx [r]) as [s|] eqn:Es;
    [|discriminate Es].
  exists s. split; [reflexivity|]. split; [reflexivity|].
  apply (summary_std_single_row Qc_sqrt_approx r s Es).
Defined.

(** ** Helpers *)


(** X25: a missing rate is labelled [Unknown]; any other rate gets one of the
    four growth labels when it is above 0 and one of the three decline labels
    otherwise, so a rate of exactly 0 counts as a slight decline. *)
Theorem categorize_growth_rate_sign (growth_rate : fval) :
  (categorize_growth_rate growth_rate = "Unknown"%string <-> growth_rate = NaN)
  /\ (categorize_growth_rate growth_rate
        ∈ ["Very High Growth"; "High Growth"; "Moderate Growth"; "Low Growth"]%string
      <-> fgtb growth_rate (fint 0) = true)
  /\ (categorize_growth_rate growth_rate
        ∈ ["Slight Decline"; "Moderate Decline"; "Steep Decline"]%string
      <-> growth_rate <> NaN /\ fgtb growth_rate (fint 0) = false)
  /\ categorize_growth_rate (fint 0) = "Slight Decline"%string.
Proof.
  assert (forall a b, a <= b -> fgtb growth_rate (fint b) = true ->
            fgtb growth_rate (fint a) = true) as Hmono.
  { intros a b Hab. unfold fgtb. intros H.
    apply Z.le_lteq in Hab as [Hab| ->]; [|done].
    eapply fltb_trans; [|exact H]. apply fltb_Fin. by apply Qc_of_Z_lt. }
  unfold categorize_growth_rate.
  destruct growth_rate as [q| | |] eqn:Eg; cbn [isna].
  - destruct (fgtb (Fin q) (fint 20)) eqn:E20.
    { pose proof (Hmono 0 20 ltac:(lia) E20) as ->.
      label_cases. }
    destruct (fgtb (Fin q) (fint 10)) eqn:E10.
    { pose proof (Hmono 0 10 ltac:(lia) E10) as ->.
      label_cases. }
    destruct (fgtb (Fin q) (fint 5)) eqn:E5.
    { pose proof (Hmono 0 5 ltac:(lia) E5) as ->.
      label_cases. }
    destruct (fgtb (Fin q) (fint 0)) eqn:E0.
    { label_cases. }
    destruct (fgtb (Fin q) (fint (-5))); [|destruct (fgtb (Fin q) (fint (-15)))];
      label_cases.
  - label_cases.
  - label_cases.
  - label_cases.
Qed.

Lemma foldl_fadd_Fin (a : Qc) (qs : list Qc) :
  foldl fadd (Fin a) (fmap Fin qs) = Fin (a + foldr Qcplus 0%Qc qs)%Qc.
Proof.
  revert a. induction qs as [|q qs IH]; intros a; cbn [fmap list_fmap foldl foldr].
  - f_equal. ring.
  - cbn [fadd]. rewrite IH. f_equal. ring.
Qed.

Lemma Qc_sum_squares (qs : list Qc) :
  Forall (fun q => (0 <= q)%Qc) qs ->
  (0 <= foldr Qcplus 0 qs)%Qc
  /\ (0 <= foldr Qcplus 0 (fmap (fun q => q * q) qs))%Qc
  /\ (foldr Qcplus 0 (fmap (fun q => q * q) qs)
      <= foldr Qcplus 0 qs * foldr Qcplus 0 qs)%Qc.
Proof.
  assert (forall a b : Qc, 0 <= a -> 0 <= b -> 0 <= a + b)%Qc as Hadd.
  { intros a b Ha Hb. replace 0%Qc with (0 + 0)%Qc by ring.
    by apply Qcplus_le_compat. }
  assert (forall a b : Qc, 0 <= a -> 0 <= b -> 0 <= a * b)%Qc as Hmul.
  { intros a b Ha Hb. replace 0%Qc with (0 * b)%Qc by ring.
    by apply Qcmult_le_compat_r. }
  induction 1 as [|q qs Hq _ (HS & HT & IH)]; cbn [fmap list_fmap foldr].
  - split; [done|]. split; [done|]. by rewrite Qcmult_0_l.
  - set (S := foldr Qcplus 0%Qc qs) in *.
    set (T := foldr Qcplus 0%Qc (fmap (fun q => (q * q)%Qc) qs)) in *.
    split; [by apply Hadd|]. split; [apply Hadd; [by apply Hmul|done]|].
    replace ((q + S) * (q + S))%Qc with (q * q + (S * S + (q * S + q * S)))%Qc by ring.
    apply Qcplus_le_compat; [apply Qcle_refl|].
    replace T with (T + 0)%Qc by ring.
    apply Qcplus_le_compat; [done|]. apply Hadd; by apply Hmul.
Qed.

(** X26: for finite shares the concentration index is finite, not negative,
    and the sum of the squares of the shares; for shares that are not negative
    and sum to 100 it is at most 10000. *)
Theorem market_concentration_index (shares : list Qc) :
  calculate_market_concentration (fmap Fin shares)
  = Fin (foldr Qcplus 0 (fmap (fun q => q * q) shares))%Qc
  /\ (Forall (fun q => (0 <= q)%Qc) shares ->
      fsum (fmap Fin shares) = hundred ->
      fltb (fint 10000) (calculate_market_concentration (fmap Fin shares)) = false).
Proof.
  assert (calculate_market_concentration (fmap Fin shares)
          = Fin (foldr Qcplus 0 (fmap (fun q => q * q) shares))%Qc) as E.
  { unfold calculate_market_concentration.
    rewrite <- !list_fmap_compose.
    assert (fmap ((fun proportion => fmul proportion proportion)
                    ∘ (fun share => fdiv share hundred) ∘ Fin) shares
            = fmap Fin (fmap (fun q => (q / Qc_of_Z 100) * (q / Qc_of_Z 100))%Qc shares))
      as ->.
    { rewrite <- list_fmap_compose. by apply list_fmap_ext. }
    unfold fsum, fzero. rewrite foldl_fadd_Fin. unfold fint. cbn [fmul]. f_equal.
    induction shares as [|q qs IH]; cbn [fmap list_fmap foldr].
    - rewrite Qc_of_Z_0. ring.
    - rewrite <- IH. rewrite Qc_of_Z_0.
      replace (Qc_of_Z 10000) with (Qc_of_Z 100 * Qc_of_Z 100)%Qc
        by (by rewrite <- Qc_of_Z_mul).
      field. by apply Qc_of_Z_nonzero. }
  split; [exact E|]. intros Hpos Hsum. rewrite E.
  apply not_true_is_false. unfold fint. rewrite fltb_Fin. apply Qcle_not_lt.
  destruct (Qc_sum_squares shares Hpos) as (_ & _ & Hle).
  unfold fsum, fzero, hundred, fint in Hsum. rewrite foldl_fadd_Fin in Hsum.
  assert (foldr Qcplus 0%Qc shares = Qc_of_Z 100) as ES.
  { assert (forall a b, Fin a = Fin b -> a = b) as Finj by (intros a b H; congruence).
    apply Finj in Hsum. rewrite <- Hsum, Qc_of_Z_0. ring. }
  rewrite ES, <- Qc_of_Z_mul in Hle. exact Hle.
Qed.

Lemma market_concentration_index_witness :
  fltb (fint 10000)
       (calculate_market_concentration (fmap Fin [Qc_of_Z 60; Qc_of_Z 40])) = false.
Proof.
  apply (market_concentration_index [Qc_of_Z 60; Qc_of_Z 40]).
  - repeat constructor; by apply Qc_of_Z_le.
  - apply fval_eqb_eq. vm_compute. reflexivity.
Defined.

(** ** Generated data through the processor *)

Section generated_processed.
Variable Qc_sqrt : Qc -> Qc.

End generated_processed.

